(** * The tunneling plugin of gloo: HTTP CONNECT through a loopback pair

    Source: projects/gloo/pkg/plugins/tunneling/plugin.go

    The plugin scans the route configurations built by earlier translation
    stages.  For every route that targets, by a single cluster name, an
    upstream with an HTTP proxy hostname, it points the route at a generated
    "self" cluster, whose only endpoint is a pipe back into the proxy, and
    generates the listener on that pipe which forwards the bytes through the
    CONNECT tunnel to the original cluster.

    The Go code mutates the routes and the input clusters in place and keeps
    three locals (two output slices and a set of processed names).  The
    embedding threads them explicitly: [processRoute] is the body of the
    innermost loop, [scan] is a [for ... range] loop whose body may return
    from the enclosing function, [GeneratedResources] is the method.  Its
    result records, besides the five values the method returns, the route
    configurations and the clusters as the call leaves them.

    Conventions.
    - A protobuf message is a record of the fields the plugin reads or
      writes (and, for a route action, two it does not); an optional message
      or wrapper is an [option], a oneof an inductive type, a repeated field
      a list.  A nil slice and an empty slice are both [[]].
    - The route configurations are a tree of values: every route is reached
      once by the three loops, as in the configurations the translator
      builds.  Two slots that share one route object are not modelled.  The
      slices hold no nil pointers; the getters of plugin.go treat a nil
      element as an empty one.
    - The input clusters are a list; the in-place update of the first
      cluster of a name updates the list at that position.
    - [translator.ClusterToUpstreamRef], [UpstreamList.Find],
      [ResolveUpstreamSslConfig] and [utils.MessageToAny] live in other
      packages, outside plugin.go.  They are variables of the section that
      holds the plugin: pure functions into [error + _], and every property
      is proved for all of them. *)

From Stdlib Require Import Ascii.
From stdpp Require Import gmap strings list.

Open Scope string_scope.
Open Scope list_scope.

(** ** Go's [error] and the protobuf envelope *)

(** A Go [error] value, identified by its message. *)
Record error := errorString { Error_msg : string }.

(** [any.Any]: a type URL and the serialised bytes. *)
Record Any := { Any_TypeUrl : string; Any_Value : string }.

(** [duration.Duration] *)
Record Duration := { Seconds : Z; Nanos : Z }.

(** ** envoy/config/core/v3 *)

Record TransportSocket := {
  TransportSocket_Name : string;
  (* the ConfigType oneof has the single case TypedConfig *)
  TransportSocket_TypedConfig : option Any
}.

Record Pipe := { Pipe_Path : string }.

Inductive Address :=
| Address_Pipe (pipe : Pipe)
| Address_SocketAddress (host : string) (port : Z).

Record HeaderValue := { HeaderValue_Key : string; HeaderValue_Value : string }.

Record HeaderValueOption := {
  HeaderValueOption_Header : option HeaderValue;
  HeaderValueOption_Append : option bool        (* *wrappers.BoolValue *)
}.

(** ** envoy/config/endpoint/v3 *)

Record Endpoint := { Endpoint_Address : option Address }.

(* the HostIdentifier oneof, case Endpoint *)
Record LbEndpoint := { LbEndpoint_Endpoint : option Endpoint }.

Record LocalityLbEndpoints := { LbEndpoints : list LbEndpoint }.

Record ClusterLoadAssignment := {
  ClusterName : string;
  Endpoints : list LocalityLbEndpoints
}.

(** ** envoy/config/cluster/v3 *)

Inductive Cluster_DiscoveryType :=
| Cluster_STATIC
| Cluster_STRICT_DNS
| Cluster_LOGICAL_DNS
| Cluster_EDS
| Cluster_ORIGINAL_DST.

Record Cluster_TransportSocketMatch := {
  TransportSocketMatch_Name : string;
  TransportSocketMatch_TransportSocket : option TransportSocket
}.

Record Cluster := {
  Cluster_Name : string;
  (* the ClusterDiscoveryType oneof, case Type *)
  Cluster_Type : option Cluster_DiscoveryType;
  ConnectTimeout : option Duration;
  Cluster_TransportSocket : option TransportSocket;
  TransportSocketMatches : list Cluster_TransportSocketMatch;
  LoadAssignment : option ClusterLoadAssignment
}.

(** ** envoy/config/listener/v3 *)

Record Filter := {
  Filter_Name : string;
  Filter_TypedConfig : option Any
}.

Record FilterChain := { Filters : list Filter }.

Record Listener := {
  Listener_Name : string;
  Listener_Address : option Address;
  FilterChains : list FilterChain
}.

(** ** envoy/config/route/v3 *)

Record WeightedCluster_ClusterWeight := {
  ClusterWeight_Name : string;
  ClusterWeight_Weight : Z
}.

(** The ClusterSpecifier oneof of a route action. *)
Inductive RouteAction_ClusterSpecifier :=
| RouteAction_Cluster (cluster : string)
| RouteAction_ClusterHeader (header : string)
| RouteAction_WeightedClusters (clusters : list WeightedCluster_ClusterWeight).

Record RouteAction := {
  ClusterSpecifier : option RouteAction_ClusterSpecifier;
  (* two of the fields the plugin never looks at *)
  PrefixRewrite : string;
  RouteAction_Timeout : option Duration
}.

(** The Action oneof of a route. *)
Inductive Route_Action :=
| Route_Route (route : RouteAction)
| Route_Redirect (host : string)
| Route_DirectResponse (status : Z).

Record Route := {
  Route_Name : string;
  Route_Prefix : string;                 (* the match *)
  Action : option Route_Action
}.

Record VirtualHost := {
  VirtualHost_Name : string;
  Domains : list string;
  Routes : list Route
}.

Record RouteConfiguration := {
  RouteConfiguration_Name : string;
  VirtualHosts : list VirtualHost
}.

(** nil-safe getters, as protoc generates them *)

Definition Route_GetRoute (rt : Route) : option RouteAction :=
  match Action rt with
  | Some (Route_Route a) => Some a
  | _ => None
  end.

Definition RouteAction_GetCluster (rtAction : option RouteAction) : string :=
  match rtAction with
  | Some a =>
      match ClusterSpecifier a with
      | Some (RouteAction_Cluster c) => c
      | _ => ""
      end
  | None => ""
  end.

(** [rtAction.ClusterSpecifier = cs], seen from the route that owns the
    action.  The plugin only executes the assignment when [rtAction] is not
    nil. *)
Definition Route_setClusterSpecifier
    (rt : Route) (cs : RouteAction_ClusterSpecifier) : Route :=
  match Action rt with
  | Some (Route_Route a) =>
      {| Route_Name := Route_Name rt;
         Route_Prefix := Route_Prefix rt;
         Action := Some (Route_Route
           {| ClusterSpecifier := Some cs;
              PrefixRewrite := PrefixRewrite a;
              RouteAction_Timeout := RouteAction_Timeout a |}) |}
  | _ => rt
  end.

(** ** envoy/extensions/filters/network/tcp_proxy/v3 *)

Record TcpProxy_TunnelingConfig := {
  Hostname : string;
  HeadersToAdd : list HeaderValueOption
}.

Record TcpProxy := {
  StatPrefix : string;
  TunnelingConfig : option TcpProxy_TunnelingConfig;
  (* the ClusterSpecifier oneof, case Cluster *)
  TcpProxy_Cluster : option string
}.

(** ** solo-kit and gloo resources *)

Record ResourceRef := { ref_Name : string; ref_Namespace : string }.

(** The header type of the gloo API (key and value). *)
Record UpstreamHeaderValue := { header_Key : string; header_Value : string }.

(** Modelled from the spec: the declaration of the gloo [Upstream] message
    (the generated API package) is missing.  The data model gives it an identity
    (namespace, name), an optional tunneling hostname, an ordered list of
    CONNECT headers and an optional tunnel SSL descriptor; the field names
    are those of the getters plugin.go calls.  The descriptor's type is
    left open. *)
Record Upstream {UpstreamSslConfig : Type} := {
  Metadata : ResourceRef;
  HttpProxyHostname : option string;            (* *wrappers.StringValue *)
  HttpConnectSslConfig : option UpstreamSslConfig;
  HttpConnectHeaders : list UpstreamHeaderValue
}.
Arguments Upstream : clear implicits.

(** [params.Snapshot], as far as the plugin reads it. *)
Record ApiSnapshot {UpstreamSslConfig SecretList : Type} := {
  Upstreams : list (Upstream UpstreamSslConfig);
  Secrets : SecretList
}.
Arguments ApiSnapshot : clear implicits.

Record Params {UpstreamSslConfig SecretList : Type} := {
  Snapshot : ApiSnapshot UpstreamSslConfig SecretList
}.
Arguments Params : clear implicits.

(** What [utils.MessageToAny] is applied to. *)
Inductive Message {UpstreamTlsContext : Type} :=
| Message_UpstreamTlsContext (cfg : UpstreamTlsContext)
| Message_TcpProxy (cfg : TcpProxy).
Arguments Message : clear implicits.

(** [wellknown.TransportSocketTls] of go-control-plane *)
Definition TransportSocketTls : string := "envoy.transport_sockets.tls".

(** What a loop body tells the loop around it: go on with the next element,
    or return from [GeneratedResources], either with what was generated so
    far and a nil error, or with an error and nothing else. *)
Inductive Flow :=
| Next
| ReturnPartial
| ReturnError (err : error).

(** The locals of [GeneratedResources] that outlive one iteration, and the
    input clusters, which the loop body updates in place. *)
Record ScanState := {
  generatedClusters : list Cluster;
  generatedListeners : list Listener;
  processedClusters : gset string;
  liveClusters : list Cluster      (* the elements of inClusters, as they are now *)
}.

(** A [for _, x := range xs] loop whose body may update [x] in place and may
    return from the function.  The elements after a return are left as they
    were. *)
Fixpoint scan {A : Type} (body : ScanState → A → A * ScanState * Flow)
    (st : ScanState) (xs : list A) : list A * ScanState * Flow :=
  match xs with
  | [] => ([], st, Next)
  | x :: rest =>
      match body st x with
      | (x', st', Next) =>
          let '(rest', st'', fl) := scan body st' rest in
          (x' :: rest', st'', fl)
      | (x', st', fl) => (x' :: rest, st', fl)
      end
  end.

(** ** A sample environment

    Concrete collaborators and resources, for the instances at the end of
    the file.  Cluster names have the form name_namespace (or name alone);
    an SSL configuration is the name of a secret, the secrets are the names
    that can be resolved, and a resolved TLS context is a string. *)

Module Sample.

(** [strings.Split(s, "_")] *)
Fixpoint splitUnderscore (s : string) : list string :=
  match s with
  | EmptyString => [""]
  | String ch rest =>
      if Ascii.eqb ch "_"%char then "" :: splitUnderscore rest
      else match splitUnderscore rest with
           | head :: tail => String ch head :: tail
           | [] => [String ch ""]
           end
  end.

(** A reference resolver: a cluster name with more than one underscore is
    no name of an upstream. *)
Definition ClusterToUpstreamRef (cluster : string) : error + ResourceRef :=
  match splitUnderscore cluster with
  | [name] => inr {| ref_Name := name; ref_Namespace := "" |}
  | [name; namespace] => inr {| ref_Name := name; ref_Namespace := namespace |}
  | _ => inl (errorString "unable to convert cluster back to upstream ref")
  end.

(** A resolver that takes every cluster name for the name of an upstream. *)
Definition AnyClusterToUpstreamRef (cluster : string) : error + ResourceRef :=
  inr {| ref_Name := cluster; ref_Namespace := "" |}.

(** The first upstream of the namespace and name. *)
Fixpoint Find (list : list (Upstream string)) (namespace name : string)
    : error + Upstream string :=
  match list with
  | [] => inl (errorString "list did not find upstream")
  | us :: rest =>
      if decide (ref_Name (Metadata us) = name ∧
                 ref_Namespace (Metadata us) = namespace)
      then inr us
      else Find rest namespace name
  end.

Definition ResolveUpstreamSslConfig (secrets : list string) (sslConfig : string)
    : error + string :=
  if decide (sslConfig ∈ secrets) then inr ("tls:" +:+ sslConfig)
  else inl (errorString "secret not found").

(** A serialiser that refuses the TLS context "tls:broken" and a tunnel to
    the hostname "unencodable". *)
Definition MessageToAny (msg : Message string) : error + Any :=
  match msg with
  | Message_UpstreamTlsContext cfg =>
      if decide (cfg = "tls:broken") then inl (errorString "marshal tls")
      else inr {| Any_TypeUrl := "UpstreamTlsContext"; Any_Value := cfg |}
  | Message_TcpProxy cfg =>
      match TunnelingConfig cfg with
      | Some tunnel =>
          if decide (Hostname tunnel = "unencodable")
          then inl (errorString "marshal tcp proxy")
          else inr {| Any_TypeUrl := "TcpProxy";
                      Any_Value := StatPrefix cfg +:+ ">" +:+ Hostname tunnel |}
      | None => inr {| Any_TypeUrl := "TcpProxy"; Any_Value := StatPrefix cfg |}
      end
  end.

Definition upstream (name namespace : string) (hostname : option string)
    (sslConfig : option string) (headers : list UpstreamHeaderValue)
    : Upstream string :=
  {| Metadata := {| ref_Name := name; ref_Namespace := namespace |};
     HttpProxyHostname := hostname;
     HttpConnectSslConfig := sslConfig;
     HttpConnectHeaders := headers |}.

Definition us_c1 : Upstream string :=
  upstream "c1" "" (Some "internal.example.com") None
    [ {| header_Key := "X-Foo"; header_Value := "bar" |} ].

Definition us_c2 : Upstream string :=
  upstream "c2" "gloo-system" (Some "proxy.example.com") (Some "proxy-tls")
    [ {| header_Key := "X-Foo"; header_Value := "bar" |};
      {| header_Key := "Proxy-Authorization"; header_Value := "Basic abc" |} ].

Definition us_plain : Upstream string := upstream "plain" "" None None [].

Definition us_c3 : Upstream string :=
  upstream "c3" "" (Some "proxy.example.com") (Some "missing") [].

Definition us_c4 : Upstream string :=
  upstream "c4" "" (Some "unencodable") None [].

Definition us_c5 : Upstream string :=
  upstream "c5" "" (Some "proxy.example.com") (Some "broken") [].

Definition us_c6 : Upstream string :=
  upstream "c6" "" (Some "proxy.example.com") None [].

Definition params : Params string (list string) :=
  {| Snapshot :=
       {| Upstreams := [us_c1; us_c2; us_plain; us_c3; us_c4; us_c5; us_c6];
          Secrets := ["proxy-tls"; "broken"] |} |}.

Definition transportSocket (name : string) : TransportSocket :=
  {| TransportSocket_Name := name; TransportSocket_TypedConfig := None |}.

Definition cluster (name : string) (ts : option TransportSocket) : Cluster :=
  {| Cluster_Name := name;
     Cluster_Type := Some Cluster_EDS;
     ConnectTimeout := Some {| Seconds := 5; Nanos := 0 |};
     Cluster_TransportSocket := ts;
     TransportSocketMatches :=
       match ts with
       | Some _ =>
           [ {| TransportSocketMatch_Name := "match";
                TransportSocketMatch_TransportSocket := ts |} ]
       | None => []
       end;
     LoadAssignment := None |}.

(** The input clusters; there is none for the upstream c6. *)
Definition inClusters : list Cluster :=
  [ cluster "c1" (Some (transportSocket "TLS-A"));
    cluster "c2_gloo-system" (Some (transportSocket "TLS-B"));
    cluster "plain" None;
    cluster "c3" (Some (transportSocket "TLS-C"));
    cluster "c4" None;
    cluster "c5" None ].

Definition routeTo (name : string) (cs : RouteAction_ClusterSpecifier) : Route :=
  {| Route_Name := name;
     Route_Prefix := "/";
     Action := Some (Route_Route
       {| ClusterSpecifier := Some cs;
          PrefixRewrite := "/";
          RouteAction_Timeout := Some {| Seconds := 15; Nanos := 0 |} |}) |}.

Definition r_c1 : Route := routeTo "r1" (RouteAction_Cluster "c1").
Definition r_c1' : Route := routeTo "r1'" (RouteAction_Cluster "c1").
Definition r_c2 : Route := routeTo "r2" (RouteAction_Cluster "c2_gloo-system").
Definition r_plain : Route := routeTo "plain" (RouteAction_Cluster "plain").
Definition r_c3 : Route := routeTo "r3" (RouteAction_Cluster "c3").
Definition r_c4 : Route := routeTo "r4" (RouteAction_Cluster "c4").
Definition r_c5 : Route := routeTo "r5" (RouteAction_Cluster "c5").
Definition r_c6 : Route := routeTo "r6" (RouteAction_Cluster "c6").
Definition r_unparsable : Route := routeTo "bad" (RouteAction_Cluster "a_b_c").
Definition r_unknown : Route := routeTo "unknown" (RouteAction_Cluster "nowhere").
Definition r_weighted : Route :=
  routeTo "weighted"
    (RouteAction_WeightedClusters
       [ {| ClusterWeight_Name := "c1"; ClusterWeight_Weight := 1 |};
         {| ClusterWeight_Name := "plain"; ClusterWeight_Weight := 3 |} ]).
Definition r_header : Route :=
  routeTo "header" (RouteAction_ClusterHeader "x-cluster").

Definition virtualHost (name : string) (routes : list Route) : VirtualHost :=
  {| VirtualHost_Name := name; Domains := ["*"]; Routes := routes |}.

Definition routeConfiguration (vhs : list VirtualHost) : RouteConfiguration :=
  {| RouteConfiguration_Name := "listener-::-8080-routes"; VirtualHosts := vhs |}.

(** Two virtual hosts that both route to c1, and more routes besides. *)
Definition rtConfigs : list RouteConfiguration :=
  [ routeConfiguration
      [ virtualHost "a" [r_c1; r_weighted];
        virtualHost "b" [r_plain; r_c1'; r_header] ];
    routeConfiguration [ virtualHost "c" [r_c2; r_c6] ] ].

Definition rtConfigsOf (routes : list Route) : list RouteConfiguration :=
  [ routeConfiguration [ virtualHost "a" routes ] ].

(** A snapshot in which a self-cluster name is itself the name of a
    tunneling upstream, for the resolver that takes every name. *)
Definition us_x : Upstream string :=
  upstream "x" "" (Some "proxy.example.com") None [].

Definition us_self_x : Upstream string :=
  upstream "solo_io_generated_self_cluster_x" "" (Some "proxy.example.com")
    None [].

Definition paramsSelf : Params string (list string) :=
  {| Snapshot := {| Upstreams := [us_x; us_self_x]; Secrets := [] |} |}.

Definition r_x : Route := routeTo "x" (RouteAction_Cluster "x").
Definition r_self_x : Route :=
  routeTo "self-x" (RouteAction_Cluster "solo_io_generated_self_cluster_x").


(** A route that redirects, and a second cluster of the name c1 at the end
    of the input clusters. *)
Definition r_redirect : Route :=
  {| Route_Name := "redirect";
     Route_Prefix := "/old";
     Action := Some (Route_Redirect "example.com") |}.

Definition c1_again : Cluster := cluster "c1" (Some (transportSocket "TLS-Z")).

Definition inClustersTwice : list Cluster := inClusters ++ [c1_again].


End Sample.


(** A decidable proposition about concrete data, by evaluation. *)
Ltac by_computation := apply (bool_decide_unpack _); vm_compute; exact I.

(** ** The plugin *)

Section Tunneling.

Context {UpstreamSslConfig SecretList UpstreamTlsContext : Type}.

(** The four collaborators of the plugin.  Their code is in other packages;
    the plugin is verified for all of them. *)
Variable ClusterToUpstreamRef : string → error + ResourceRef.
Variable Find :
  list (Upstream UpstreamSslConfig) → string → string →
  error + Upstream UpstreamSslConfig.
Variable ResolveUpstreamSslConfig :
  SecretList → UpstreamSslConfig → error + UpstreamTlsContext.
Variable MessageToAny : Message UpstreamTlsContext → error + Any.

(** [us.GetHttpProxyHostname().GetValue()] *)
Definition GetHttpProxyHostname_GetValue (us : Upstream UpstreamSslConfig) : string :=
  default "" (HttpProxyHostname us).

(** plugin.go 161-192 *)
Definition generateSelfCluster (selfCluster selfPipe : string)
    (originalTransportSocket : option TransportSocket) : Cluster :=
  {| Cluster_Type := Some Cluster_STATIC;
     ConnectTimeout := Some {| Seconds := 5; Nanos := 0 |};
     Cluster_Name := selfCluster;
     Cluster_TransportSocket := originalTransportSocket;
     TransportSocketMatches := [];
     LoadAssignment := Some
       {| ClusterName := selfCluster;
          Endpoints :=
            [ {| LbEndpoints :=
                   [ {| LbEndpoint_Endpoint := Some
                          {| Endpoint_Address := Some
                               (Address_Pipe {| Pipe_Path := selfPipe |}) |}
                     |} ] |} ] |} |}.

(** plugin.go 195-227 *)
Definition generateForwardingTcpListener
    (cluster selfPipe tunnelingHostname : string)
    (tunnelingHeadersToAdd : list HeaderValueOption) : error + Listener :=
  let cfg :=
    {| StatPrefix := "soloioTcpStats" +:+ cluster;
       TunnelingConfig := Some
         {| Hostname := tunnelingHostname;
            HeadersToAdd := tunnelingHeadersToAdd |};
       TcpProxy_Cluster := Some cluster |} in
  match MessageToAny (Message_TcpProxy cfg) with
  | inl err => inl err
  | inr typedConfig =>
      inr {| Listener_Name := "solo_io_generated_self_listener_" +:+ cluster;
             Listener_Address := Some
               (Address_Pipe {| Pipe_Path := selfPipe |});
             FilterChains :=
               [ {| Filters :=
                      [ {| Filter_Name := "tcp";
                           Filter_TypedConfig := Some typedConfig |} ] |} ]
          |}
  end.

(** plugin.go 84-93: the loop that appends one option per CONNECT header. *)
Definition tunnelingHeadersOf (us : Upstream UpstreamSslConfig) : list HeaderValueOption :=
  fold_left
    (λ tunnelingHeaders header,
       tunnelingHeaders ++
         [ {| HeaderValueOption_Header := Some
                {| HeaderValue_Key := header_Key header;
                   HeaderValue_Value := header_Value header |};
              HeaderValueOption_Append := Some false |} ])
    (HttpConnectHeaders us) [].

(** plugin.go 95-96 *)
Definition selfClusterOf (cluster : string) : string :=
  "solo_io_generated_self_cluster_" +:+ cluster.

Definition selfPipeOf (cluster : string) : string := "@/" +:+ cluster.

(** [inCluster.TransportSocket = ts; inCluster.TransportSocketMatches = nil]
    (plugin.go 116-117 with [ts = nil], 133-136 on top of them) *)
Definition Cluster_setTransportSocket
    (inCluster : Cluster) (ts : option TransportSocket) : Cluster :=
  {| Cluster_Name := Cluster_Name inCluster;
     Cluster_Type := Cluster_Type inCluster;
     ConnectTimeout := ConnectTimeout inCluster;
     Cluster_TransportSocket := ts;
     TransportSocketMatches := [];
     LoadAssignment := LoadAssignment inCluster |}.

Variable params : Params UpstreamSslConfig SecretList.

(** plugin.go 105-139: the loop over [inClusters].  It stops at the first
    cluster of the name, by [break] or by returning from the method.  The
    result is the cluster list after the in-place updates, the local
    [originalTransportSocket], and how the loop was left. *)
Fixpoint relocateTransportSocket (us : Upstream UpstreamSslConfig) (cluster : string)
    (clusters : list Cluster)
    : list Cluster * option TransportSocket * Flow :=
  match clusters with
  | [] => ([], None, Next)
  | inCluster :: rest =>
      if decide (Cluster_Name inCluster = cluster) then
        let originalTransportSocket := Cluster_TransportSocket inCluster in
        let cleared := Cluster_setTransportSocket inCluster None in
        match HttpConnectSslConfig us with
        | None => (cleared :: rest, originalTransportSocket, Next)
        | Some sslConfig =>
            match ResolveUpstreamSslConfig
                    (Secrets (Snapshot params)) sslConfig with
            | inl _ =>
                (cleared :: rest, originalTransportSocket, ReturnPartial)
            | inr cfg =>
                match MessageToAny (Message_UpstreamTlsContext cfg) with
                | inl err =>
                    (cleared :: rest, originalTransportSocket,
                     ReturnError err)
                | inr typedConfig =>
                    (Cluster_setTransportSocket inCluster
                       (Some {| TransportSocket_Name := TransportSocketTls;
                                TransportSocket_TypedConfig :=
                                  Some typedConfig |}) :: rest,
                     originalTransportSocket, Next)
                end
            end
        end
      else
        let '(rest', originalTransportSocket, fl) :=
          relocateTransportSocket us cluster rest in
        (inCluster :: rest', originalTransportSocket, fl)
  end.

(** plugin.go 60-147: the body of the loop over the routes of a virtual
    host. *)
Definition processRoute (st : ScanState) (rt : Route)
    : Route * ScanState * Flow :=
  let rtAction := Route_GetRoute rt in
  let cluster := RouteAction_GetCluster rtAction in
  if decide (cluster = "") then (rt, st, Next) else
  match ClusterToUpstreamRef cluster with
  | inl _ => (rt, st, ReturnPartial)
  | inr ref =>
      match Find (Upstreams (Snapshot params))
              (ref_Namespace ref) (ref_Name ref) with
      | inl _ => (rt, st, ReturnPartial)
      | inr us =>
          let tunnelingHostname := GetHttpProxyHostname_GetValue us in
          if decide (tunnelingHostname = "") then (rt, st, Next) else
          let tunnelingHeaders := tunnelingHeadersOf us in
          let selfCluster := selfClusterOf cluster in
          let selfPipe := selfPipeOf cluster in
          let rt' :=
            Route_setClusterSpecifier rt (RouteAction_Cluster selfCluster) in
          if decide (cluster ∈ processedClusters st) then (rt', st, Next)
          else
            let '(clusters', originalTransportSocket, fl) :=
              relocateTransportSocket us cluster (liveClusters st) in
            match fl with
            | Next =>
                let generatedClusters' :=
                  generatedClusters st ++
                    [generateSelfCluster selfCluster selfPipe
                       originalTransportSocket] in
                match generateForwardingTcpListener
                        cluster selfPipe tunnelingHostname tunnelingHeaders
                with
                | inl err =>
                    (rt',
                     {| generatedClusters := generatedClusters';
                        generatedListeners := generatedListeners st;
                        processedClusters := processedClusters st;
                        liveClusters := clusters' |},
                     ReturnError err)
                | inr forwardingTcpListener =>
                    (rt',
                     {| generatedClusters := generatedClusters';
                        generatedListeners :=
                          generatedListeners st ++ [forwardingTcpListener];
                        processedClusters :=
                          {[cluster]} ∪ processedClusters st;
                        liveClusters := clusters' |},
                     Next)
                end
            | _ =>
                (rt',
                 {| generatedClusters := generatedClusters st;
                    generatedListeners := generatedListeners st;
                    processedClusters := processedClusters st;
                    liveClusters := clusters' |},
                 fl)
            end
      end
  end.

(** plugin.go 58-149: the loop over the virtual hosts of a route
    configuration, and in it the loop over the routes. *)
Definition processVirtualHost (st : ScanState) (vh : VirtualHost)
    : VirtualHost * ScanState * Flow :=
  let '(routes', st', fl) := scan processRoute st (Routes vh) in
  ({| VirtualHost_Name := VirtualHost_Name vh;
      Domains := Domains vh;
      Routes := routes' |}, st', fl).

Definition processRouteConfiguration (st : ScanState)
    (rtConfig : RouteConfiguration) : RouteConfiguration * ScanState * Flow :=
  let '(vhs', st', fl) := scan processVirtualHost st (VirtualHosts rtConfig) in
  ({| RouteConfiguration_Name := RouteConfiguration_Name rtConfig;
      VirtualHosts := vhs' |}, st', fl).

(** plugin.go 48-54 *)
Definition initialState (inClusters : list Cluster) : ScanState :=
  {| generatedClusters := [];
     generatedListeners := [];
     processedClusters := ∅;
     liveClusters := inClusters |}.

(** What a call leaves behind: the five results (a nil slice is the empty
    list, a nil error is [None]) and the two arguments it updated in
    place. *)
Record Outcome := {
  outClusters : list Cluster;
  outEndpoints : list ClusterLoadAssignment;
  outRouteConfigurations : list RouteConfiguration;
  outListeners : list Listener;
  outErr : option error;
  mutClusters : list Cluster;
  mutRouteConfigurations : list RouteConfiguration
}.

(** plugin.go 57-152, before the results are assembled *)
Definition scanRouteConfigurations (inClusters : list Cluster)
    (inRouteConfigurations : list RouteConfiguration)
    : list RouteConfiguration * ScanState * Flow :=
  scan processRouteConfiguration (initialState inClusters)
    inRouteConfigurations.

(** plugin.go 41-153 *)
Definition GeneratedResources
    (inClusters : list Cluster)
    (inEndpoints : list ClusterLoadAssignment)
    (inRouteConfigurations : list RouteConfiguration)
    (inListeners : list Listener) : Outcome :=
  let '(rtConfigs', st, fl) :=
    scanRouteConfigurations inClusters inRouteConfigurations in
  match fl with
  | ReturnError err =>
      {| outClusters := []; outEndpoints := [];
         outRouteConfigurations := []; outListeners := [];
         outErr := Some err;
         mutClusters := liveClusters st;
         mutRouteConfigurations := rtConfigs' |}
  | _ =>
      {| outClusters := generatedClusters st; outEndpoints := [];
         outRouteConfigurations := [];
         outListeners := generatedListeners st;
         outErr := None;
         mutClusters := liveClusters st;
         mutRouteConfigurations := rtConfigs' |}
  end.

(** ** Vocabulary of the properties *)

(** All the routes of the route configurations, in the order the three
    nested loops reach them. *)
Definition allRoutes (rtConfigs : list RouteConfiguration) : list Route :=
  flat_map (λ rtConfig, flat_map Routes (VirtualHosts rtConfig)) rtConfigs.

(** The routes loop, on its own. *)
Definition scanRoutes (st : ScanState) (routes : list Route)
    : list Route * ScanState * Flow :=
  scan processRoute st routes.

(** The first cluster of a name in a cluster list: the one the loop of
    plugin.go 106-139 stops at. *)
Fixpoint clusterNamed (name : string) (clusters : list Cluster)
    : option Cluster :=
  match clusters with
  | [] => None
  | c :: rest =>
      if decide (Cluster_Name c = name) then Some c else clusterNamed name rest
  end.

(** The upstream behind a cluster name, when the reference parses and the
    lookup finds it (plugin.go 64-76). *)
Definition upstreamOf (cluster : string) : option (Upstream UpstreamSslConfig) :=
  match ClusterToUpstreamRef cluster with
  | inl _ => None
  | inr ref =>
      match Find (Upstreams (Snapshot params))
              (ref_Namespace ref) (ref_Name ref) with
      | inl _ => None
      | inr us => Some us
      end
  end.

(** A tunneling-eligible route: its action names a single cluster, the
    name resolves to an upstream, and the upstream has a tunneling
    hostname. *)
Definition tunnelingEligible (rt : Route) (cluster : string)
    (us : Upstream UpstreamSslConfig) : Prop :=
  RouteAction_GetCluster (Route_GetRoute rt) = cluster ∧ cluster ≠ "" ∧
  upstreamOf cluster = Some us ∧ GetHttpProxyHostname_GetValue us ≠ "".

(** The same, decided: the cluster name of an eligible route. *)
Definition eligibleCluster (rt : Route) : option string :=
  let cluster := RouteAction_GetCluster (Route_GetRoute rt) in
  if decide (cluster = "") then None
  else match upstreamOf cluster with
       | None => None
       | Some us =>
           if decide (GetHttpProxyHostname_GetValue us = "") then None
           else Some cluster
       end.

(** A route after the plugin has seen it. *)
Definition rewriteRoute (rt : Route) : Route :=
  match eligibleCluster rt with
  | Some cluster =>
      Route_setClusterSpecifier rt (RouteAction_Cluster (selfClusterOf cluster))
  | None => rt
  end.

(** The route [rt] is encountered before any abort: the routes [pre] before
    it are scanned without a return, and leave the locals as [st]. *)
Definition encountered (inClusters : list Cluster)
    (inRouteConfigurations : list RouteConfiguration)
    (pre : list Route) (rt : Route) (post : list Route) (st : ScanState)
    : Prop :=
  allRoutes inRouteConfigurations = pre ++ rt :: post ∧
  ∃ pre', scanRoutes (initialState inClusters) pre = (pre', st, Next).

(** The cluster names in the order of their first eligible route. *)
Definition visit (order : list string) (rt : Route) : list string :=
  match eligibleCluster rt with
  | Some cluster =>
      if decide (cluster ∈ order) then order else order ++ [cluster]
  | None => order
  end.

Definition visitAll (order : list string) (routes : list Route) : list string :=
  fold_left visit routes order.

(** The transport socket the original cluster is left with, and whether the
    pass goes on (plugin.go 119-137). *)
Definition connectTransportSocket (us : Upstream UpstreamSslConfig)
    : option TransportSocket * Flow :=
  match HttpConnectSslConfig us with
  | None => (None, Next)
  | Some sslConfig =>
      match ResolveUpstreamSslConfig (Secrets (Snapshot params)) sslConfig with
      | inl _ => (None, ReturnPartial)
      | inr cfg =>
          match MessageToAny (Message_UpstreamTlsContext cfg) with
          | inl err => (None, ReturnError err)
          | inr typedConfig =>
              (Some {| TransportSocket_Name := TransportSocketTls;
                       TransportSocket_TypedConfig := Some typedConfig |},
               Next)
          end
      end
  end.

(** The transport socket of the original cluster before the pass. *)
Definition originalTransportSocketOf (inClusters : list Cluster)
    (cluster : string) : option TransportSocket :=
  match clusterNamed cluster inClusters with
  | Some c => Cluster_TransportSocket c
  | None => None
  end.

(** The self-cluster of a cluster name. *)
Definition selfClusterFor (inClusters : list Cluster) (cluster : string)
    : Cluster :=
  generateSelfCluster (selfClusterOf cluster) (selfPipeOf cluster)
    (originalTransportSocketOf inClusters cluster).

Definition selfListenerOf (cluster : string) : string :=
  "solo_io_generated_self_listener_" +:+ cluster.

(** [l] is the self-listener of a cluster name. *)
Definition listenerFor (cluster : string) (l : Listener) : Prop :=
  ∃ us, upstreamOf cluster = Some us ∧
        generateForwardingTcpListener cluster (selfPipeOf cluster)
          (GetHttpProxyHostname_GetValue us) (tunnelingHeadersOf us) = inr l.

(** The pipe paths a cluster's endpoints are bound to. *)
Definition endpointPipes (c : Cluster) : list string :=
  match LoadAssignment c with
  | None => []
  | Some la =>
      flat_map
        (λ lle, flat_map
           (λ lb, match LbEndpoint_Endpoint lb with
                  | Some {| Endpoint_Address := Some (Address_Pipe p) |} =>
                      [Pipe_Path p]
                  | _ => []
                  end) (LbEndpoints lle))
        (Endpoints la)
  end.

(** The configuration of the TCP proxy filter (plugin.go 196-200). *)
Definition tcpProxyFor (cluster : string) (us : Upstream UpstreamSslConfig)
    : TcpProxy :=
  {| StatPrefix := "soloioTcpStats" +:+ cluster;
     TunnelingConfig := Some
       {| Hostname := GetHttpProxyHostname_GetValue us;
          HeadersToAdd := tunnelingHeadersOf us |};
     TcpProxy_Cluster := Some cluster |}.

(** The three failures on data at a route, with the locals as [st] when the
    route is reached: the reference does not parse, the upstream is not
    found, or the tunnel's SSL configuration does not resolve.  The last is
    only attempted for the first eligible route of a cluster that is in the
    input cluster list. *)
Inductive softFailure (inClusters : list Cluster) (st : ScanState) (rt : Route)
    : Prop :=
| parseFailure (e : error) :
    RouteAction_GetCluster (Route_GetRoute rt) ≠ "" →
    ClusterToUpstreamRef (RouteAction_GetCluster (Route_GetRoute rt)) = inl e →
    softFailure inClusters st rt
| lookupFailure (ref : ResourceRef) (e : error) :
    RouteAction_GetCluster (Route_GetRoute rt) ≠ "" →
    ClusterToUpstreamRef (RouteAction_GetCluster (Route_GetRoute rt)) = inr ref →
    Find (Upstreams (Snapshot params)) (ref_Namespace ref) (ref_Name ref)
      = inl e →
    softFailure inClusters st rt
| sslResolutionFailure (cluster : string) (us : Upstream UpstreamSslConfig)
    (sslConfig : UpstreamSslConfig) (e : error) :
    tunnelingEligible rt cluster us →
    cluster ∉ processedClusters st →
    cluster ∈ map Cluster_Name inClusters →
    HttpConnectSslConfig us = Some sslConfig →
    ResolveUpstreamSslConfig (Secrets (Snapshot params)) sslConfig = inl e →
    softFailure inClusters st rt.

(** The two serialisation failures at a route: of the resolved tunnel TLS
    configuration, and of the TCP proxy configuration (which is only
    reached when the loop over the input clusters was left by falling
    through or by [break]). *)
Inductive serializationFailure (inClusters : list Cluster) (st : ScanState)
    (rt : Route) (err : error) : Prop :=
| tlsSerializationFailure (cluster : string) (us : Upstream UpstreamSslConfig)
    (sslConfig : UpstreamSslConfig) (cfg : UpstreamTlsContext) :
    tunnelingEligible rt cluster us →
    cluster ∉ processedClusters st →
    cluster ∈ map Cluster_Name inClusters →
    HttpConnectSslConfig us = Some sslConfig →
    ResolveUpstreamSslConfig (Secrets (Snapshot params)) sslConfig = inr cfg →
    MessageToAny (Message_UpstreamTlsContext cfg) = inl err →
    serializationFailure inClusters st rt err
| tcpProxySerializationFailure (cluster : string)
    (us : Upstream UpstreamSslConfig) :
    tunnelingEligible rt cluster us →
    cluster ∉ processedClusters st →
    cluster ∉ map Cluster_Name inClusters ∨
      (∃ ts, connectTransportSocket us = (ts, Next)) →
    MessageToAny (Message_TcpProxy (tcpProxyFor cluster us)) = inl err →
    serializationFailure inClusters st rt err.


(** The routes the plugin has nothing to do for: the action is a weighted
    set of clusters or a cluster chosen by a header, or it is a single
    cluster whose upstream has no tunneling hostname. *)
Inductive notTunneling (rt : Route) : Prop :=
| weightedClusters (a : RouteAction)
    (clusters : list WeightedCluster_ClusterWeight) :
    Route_GetRoute rt = Some a →
    ClusterSpecifier a = Some (RouteAction_WeightedClusters clusters) →
    notTunneling rt
| clusterHeader (a : RouteAction) (header : string) :
    Route_GetRoute rt = Some a →
    ClusterSpecifier a = Some (RouteAction_ClusterHeader header) →
    notTunneling rt
| noTunnelingHostname (a : RouteAction) (cluster : string)
    (us : Upstream UpstreamSslConfig) :
    Route_GetRoute rt = Some a →
    ClusterSpecifier a = Some (RouteAction_Cluster cluster) →
    upstreamOf cluster = Some us →
    GetHttpProxyHostname_GetValue us = "" →
    notTunneling rt.


(** ** Vocabulary of further properties *)

(** The elements of a list in the order of their first occurrence. *)
Definition firstOccurrences (names : list string) : list string :=
  reverse (remove_dups (reverse names)).

(** An input cluster and what a call may leave of it: the same cluster, or
    the cluster with another transport socket and no transport socket
    matches. *)
Definition clusterUpdated (c c' : Cluster) : Prop :=
  c' = c ∨ ∃ ts, c' = Cluster_setTransportSocket c ts.

(** A route and what a call may leave of it: the same route, or, for a
    tunneling-eligible route, the route with the self-cluster of its cluster
    as cluster specifier. *)
Definition routeUpdated (rt rt' : Route) : Prop :=
  rt' = rt ∨
  ∃ cluster us, tunnelingEligible rt cluster us ∧
    rt' = Route_setClusterSpecifier rt
            (RouteAction_Cluster (selfClusterOf cluster)).

Definition virtualHostUpdated (vh vh' : VirtualHost) : Prop :=
  VirtualHost_Name vh' = VirtualHost_Name vh ∧ Domains vh' = Domains vh ∧
  Forall2 routeUpdated (Routes vh) (Routes vh').

Definition routeConfigurationUpdated (rc rc' : RouteConfiguration) : Prop :=
  RouteConfiguration_Name rc' = RouteConfiguration_Name rc ∧
  Forall2 virtualHostUpdated (VirtualHosts rc) (VirtualHosts rc').

(** The index of the first cluster of its name. *)
Definition firstOfItsName (clusters : list Cluster) (i : nat) (c : Cluster)
    : Prop :=
  clusters !! i = Some c ∧
  ∀ j c', j < i → clusters !! j = Some c' → Cluster_Name c' ≠ Cluster_Name c.


(** What a scan of [routes] may make of the cluster list: every cluster is
    updated in its place, and a cluster that is not the same any more is the
    first of its name, a name that some eligible route of [routes] has. *)
Definition clustersUpdated (routes : list Route) (clusters clusters' : list Cluster)
    : Prop :=
  Forall2 clusterUpdated clusters clusters' ∧
  ∀ i c, clusters !! i = Some c →
    clusters' !! i = Some c ∨
    (firstOfItsName clusters i c ∧
     ∃ rt, rt ∈ routes ∧ eligibleCluster rt = Some (Cluster_Name c)).


(** ** Invariants of the scan *)

(** What was generated, for the names [order] in this order. *)
Record Generated (cl0 : list Cluster) (order : list string) (st : ScanState)
    : Prop := {
  gen_NoDup : NoDup order;
  gen_processed : ∀ c, c ∈ processedClusters st ↔ c ∈ order;
  gen_eligible : ∀ c, c ∈ order →
    c ≠ "" ∧ ∃ us, upstreamOf c = Some us ∧ GetHttpProxyHostname_GetValue us ≠ "";
  gen_clusters : generatedClusters st = map (selfClusterFor cl0) order;
  gen_listeners : Forall2 listenerFor order (generatedListeners st)
}.

(** What happened to the input clusters of the names [order]. *)
Record Relocated (cl0 : list Cluster) (order : list string) (st : ScanState)
    : Prop := {
  rel_names : map Cluster_Name (liveClusters st) = map Cluster_Name cl0;
  rel_done : ∀ c cl, c ∈ order → clusterNamed c cl0 = Some cl →
    ∃ us ts, upstreamOf c = Some us ∧ connectTransportSocket us = (ts, Next) ∧
             clusterNamed c (liveClusters st)
               = Some (Cluster_setTransportSocket cl ts)
}.

(** The input clusters of the other names are as they were. *)
Definition Untouched (cl0 : list Cluster) (order : list string)
    (st : ScanState) : Prop :=
  ∀ c, c ∉ order → clusterNamed c (liveClusters st) = clusterNamed c cl0.

Definition Inv (cl0 : list Cluster) (order : list string) (st : ScanState)
    (fl : Flow) : Prop :=
  Relocated cl0 order st ∧
  match fl with
  | Next => Generated cl0 order st ∧ Untouched cl0 order st
  | ReturnPartial => Generated cl0 order st
  | ReturnError _ => True
  end.

(** ** The loops *)

Lemma scan_app {A : Type} (body : ScanState → A → A * ScanState * Flow)
    (st : ScanState) (xs ys : list A) :
  scan body st (xs ++ ys) =
  match scan body st xs with
  | (xs', st', Next) =>
      let '(ys', st'', fl) := scan body st' ys in (xs' ++ ys', st'', fl)
  | (xs', st', fl) => (xs' ++ ys, st', fl)
  end.
Proof.
  revert st. induction xs as [|x xs IH]; intros st; simpl.
  - by destruct (scan body st ys) as [[? ?] ?].
  - destruct (body st x) as [[x' st'] [| |e]]; simpl; try done.
    rewrite IH.
    destruct (scan body st' xs) as [[xs' st''] [| |e]]; simpl; try done.
    by destruct (scan body st'' ys) as [[? ?] ?].
Qed.

Lemma scan_length {A : Type} (body : ScanState → A → A * ScanState * Flow)
    (st st' : ScanState) (xs xs' : list A) (fl : Flow) :
  scan body st xs = (xs', st', fl) → length xs' = length xs.
Proof.
  revert st xs'. induction xs as [|x xs IH]; intros st xs' H; simpl in H.
  - by inversion H.
  - destruct (body st x) as [[x1 st1] [| |e]]; try (by inversion H).
    destruct (scan body st1 xs) as [[xs1 st2] fl1] eqn:E.
    inversion H; subst. simpl. f_equal. eauto.
Qed.

(** The loop over the virtual hosts reaches the routes one after the other,
    as one loop over all of them would. *)
Lemma scan_processVirtualHost (st : ScanState) (vhs : list VirtualHost) :
  scanRoutes st (flat_map Routes vhs) =
  let '(vhs', st', fl) := scan processVirtualHost st vhs in
  (flat_map Routes vhs', st', fl).
Proof.
  unfold scanRoutes. revert st.
  induction vhs as [|vh vhs IH]; intros st; simpl; [done|].
  rewrite scan_app. unfold processVirtualHost at 1.
  destruct (scan processRoute st (Routes vh)) as [[rts' st'] [| |e]];
    simpl; try done.
  rewrite IH.
  by destruct (scan processVirtualHost st' vhs) as [[vhs' st''] fl].
Qed.

Lemma scan_processRouteConfiguration (st : ScanState)
    (rtConfigs : list RouteConfiguration) :
  scanRoutes st (allRoutes rtConfigs) =
  let '(rtConfigs', st', fl) := scan processRouteConfiguration st rtConfigs in
  (allRoutes rtConfigs', st', fl).
Proof.
  unfold scanRoutes, allRoutes. revert st.
  induction rtConfigs as [|rc rcs IH]; intros st; simpl; [done|].
  rewrite scan_app. unfold processRouteConfiguration at 1.
  pose proof (scan_processVirtualHost st (VirtualHosts rc)) as Hvh.
  unfold scanRoutes in Hvh. rewrite Hvh.
  destruct (scan processVirtualHost st (VirtualHosts rc))
    as [[vhs' st'] [| |e]]; simpl; try done.
  rewrite IH.
  by destruct (scan processRouteConfiguration st' rcs) as [[rcs' st''] fl].
Qed.

(** The method, read off the single loop over all routes. *)
Lemma GeneratedResources_scanRoutes
    (inClusters : list Cluster) (inEndpoints : list ClusterLoadAssignment)
    (inRouteConfigurations : list RouteConfiguration)
    (inListeners : list Listener)
    (routes' : list Route) (st : ScanState) (fl : Flow) :
  scanRoutes (initialState inClusters) (allRoutes inRouteConfigurations)
    = (routes', st, fl) →
  let out := GeneratedResources inClusters inEndpoints
               inRouteConfigurations inListeners in
  allRoutes (mutRouteConfigurations out) = routes' ∧
  mutClusters out = liveClusters st ∧
  outEndpoints out = [] ∧ outRouteConfigurations out = [] ∧
  match fl with
  | ReturnError err =>
      outClusters out = [] ∧ outListeners out = [] ∧ outErr out = Some err
  | _ =>
      outClusters out = generatedClusters st ∧
      outListeners out = generatedListeners st ∧ outErr out = None
  end.
Proof.
  rewrite scan_processRouteConfiguration.
  unfold GeneratedResources, scanRouteConfigurations.
  destruct (scan processRouteConfiguration (initialState inClusters)
              inRouteConfigurations) as [[rcs' st'] fl'].
  intros H; inversion H; subst. by destruct fl.
Qed.

(** ** The loop over the input clusters *)

Lemma clusterNamed_None (name : string) (clusters : list Cluster) :
  clusterNamed name clusters = None ↔ name ∉ map Cluster_Name clusters.
Proof.
  induction clusters as [|c' rest IH]; simpl.
  - split; [intros _; apply not_elem_of_nil | done].
  - case_decide as Hn.
    + split; [done | intros []; subst; by left].
    + rewrite IH, not_elem_of_cons. split; [by split | by intros [_ ?]].
Qed.

Lemma relocateTransportSocket_spec (us : Upstream UpstreamSslConfig)
    (cluster : string) (clusters clusters' : list Cluster)
    (orig : option TransportSocket) (fl : Flow) :
  relocateTransportSocket us cluster clusters = (clusters', orig, fl) →
  orig = originalTransportSocketOf clusters cluster ∧
  map Cluster_Name clusters' = map Cluster_Name clusters ∧
  (∀ other, other ≠ cluster →
     clusterNamed other clusters' = clusterNamed other clusters) ∧
  match clusterNamed cluster clusters with
  | None => clusters' = clusters ∧ fl = Next
  | Some cl =>
      ∃ ts, connectTransportSocket us = (ts, fl) ∧
            clusterNamed cluster clusters'
              = Some (Cluster_setTransportSocket cl ts)
  end.
Proof.
  unfold originalTransportSocketOf.
  revert clusters' orig fl.
  induction clusters as [|c rest IH]; intros clusters' orig fl; simpl.
  - intros [= <- <- <-]. done.
  - case_decide as Hn.
    + unfold connectTransportSocket.
      assert (Hset : ∀ ts,
        clusterNamed cluster (Cluster_setTransportSocket c ts :: rest)
          = Some (Cluster_setTransportSocket c ts)).
      { intros ts. simpl. by rewrite decide_True. }
      assert (Hoth : ∀ ts other, other ≠ cluster →
        clusterNamed other (Cluster_setTransportSocket c ts :: rest)
          = (if decide (Cluster_Name c = other) then Some c
             else clusterNamed other rest)).
      { intros ts other Ho. simpl.
        rewrite !decide_False by congruence. done. }
      destruct (HttpConnectSslConfig us) as [ssl|].
      * destruct (ResolveUpstreamSslConfig _ ssl) as [e|cfg].
        { intros [= <- <- <-]. repeat split; auto. eauto. }
        destruct (MessageToAny _) as [e|any];
          intros [= <- <- <-]; repeat split; auto; eauto.
      * intros [= <- <- <-]. repeat split; auto. eauto.
    + destruct (relocateTransportSocket us cluster rest)
        as [[rest' orig'] fl'] eqn:E.
      intros [= <- <- <-].
      destruct (IH _ _ _ eq_refl) as (Ho & Hnames & Hother & Hc).
      split; [done|]. split; [simpl; by f_equal|].
      split.
      * intros other Hne. simpl. case_decide; [done | by apply Hother].
      * destruct (clusterNamed cluster rest) as [cl|].
        -- destruct Hc as (ts & Hts & Hcl). exists ts. split; [done|].
           simpl. by rewrite decide_False.
        -- destruct Hc as [-> ->]. done.
Qed.

(** ** One route *)

Lemma eligibleCluster_Some (rt : Route) (cluster : string) :
  eligibleCluster rt = Some cluster ↔ ∃ us, tunnelingEligible rt cluster us.
Proof.
  unfold eligibleCluster, tunnelingEligible.
  split.
  - case_decide as Hc; [done|].
    destruct (upstreamOf _) as [us|] eqn:Hus; [|done].
    case_decide as Hh; [done|]. intros [= <-]. by exists us.
  - intros (us & <- & Hc & Hus & Hh).
    rewrite decide_False by done. rewrite Hus.
    by rewrite decide_False.
Qed.

Lemma processRoute_route (st : ScanState) (rt : Route) :
  (processRoute st rt).1.1 = rewriteRoute rt.
Proof.
  unfold processRoute, rewriteRoute, eligibleCluster, upstreamOf.
  case_decide; [done|].
  destruct (ClusterToUpstreamRef _) as [e|ref]; [done|].
  destruct (Find _ _ _) as [e|us]; [done|].
  case_decide; [done|].
  case_decide; [done|].
  destruct (relocateTransportSocket _ _ _) as [[cls' orig] [| |e]]; try done.
  by destruct (generateForwardingTcpListener _ _ _ _).
Qed.

Lemma Inv_initial (cl0 : list Cluster) : Inv cl0 [] (initialState cl0) Next.
Proof.
  split; [|split].
  - split; [done|]. intros c cl Hc. by apply elem_of_nil in Hc.
  - split; simpl; try done.
    + constructor.
    + intros c. split; intros Hc; [by apply elem_of_empty in Hc | by apply elem_of_nil in Hc].
    + intros c Hc. by apply elem_of_nil in Hc.
  - done.
Qed.

(** One iteration keeps the invariant, and extends the order by the
    cluster name of the route when resources are generated for it. *)
Lemma processRoute_inv (cl0 : list Cluster) (order : list string)
    (st st' : ScanState) (rt rt' : Route) (fl : Flow) :
  Inv cl0 order st Next →
  processRoute st rt = (rt', st', fl) →
  Inv cl0 (match fl with Next => visit order rt | _ => order end) st' fl.
Proof.
  intros [Hrel [Hgen Hunt]].
  unfold processRoute, visit, eligibleCluster.
  set (cluster := RouteAction_GetCluster (Route_GetRoute rt)).
  case_decide as Hc.
  { intros [= <- <- <-]. by split. }
  unfold upstreamOf.
  destruct (ClusterToUpstreamRef cluster) as [e|ref] eqn:Href.
  { intros [= <- <- <-]. by split. }
  destruct (Find _ _ _) as [e|us] eqn:Hfind.
  { intros [= <- <- <-]. by split. }
  case_decide as Hh.
  { intros [= <- <- <-]. by split. }
  assert (Hus : upstreamOf cluster = Some us).
  { unfold upstreamOf. by rewrite Href, Hfind. }
  case_decide as Hp.
  { intros [= <- <- <-].
    rewrite decide_True by (by apply (gen_processed _ _ _ Hgen)).
    by split. }
  assert (Hno : cluster ∉ order).
  { intros Hin. by apply Hp, (gen_processed _ _ _ Hgen). }
  destruct (relocateTransportSocket us cluster (liveClusters st))
    as [[cls' orig] fl'] eqn:Hrl.
  destruct (relocateTransportSocket_spec _ _ _ _ _ _ Hrl)
    as (Ho & Hnames & Hother & Hcl).
  assert (Hrel' : ∀ g l p, Relocated cl0 order
            {| generatedClusters := g; generatedListeners := l;
               processedClusters := p; liveClusters := cls' |}).
  { intros g l p. split; simpl.
    - rewrite Hnames. apply (rel_names _ _ _ Hrel).
    - intros c cl Hin Hc0.
      rewrite Hother by (intros ->; done).
      by apply (rel_done _ _ _ Hrel). }
  destruct fl' as [| |e].
  - destruct (generateForwardingTcpListener _ _ _ _) as [e|l] eqn:Hl.
    + intros [= <- <- <-]. split; [apply Hrel' | done].
    + intros [= <- <- <-]. rewrite decide_False by done.
      split; [|split].
      * split; simpl.
        -- rewrite Hnames. apply (rel_names _ _ _ Hrel).
        -- intros c cl Hin Hc0.
           apply elem_of_app in Hin as [Hin|Hin].
           ++ rewrite Hother by (intros ->; done).
              by apply (rel_done _ _ _ Hrel).
           ++ apply list_elem_of_singleton in Hin as ->.
              rewrite (Hunt _ Hno), Hc0 in Hcl.
              destruct Hcl as (ts & Hts & Hcl). by exists us, ts.
      * split; simpl.
        -- apply NoDup_app. split; [apply (gen_NoDup _ _ _ Hgen)|].
           split; [|apply NoDup_singleton].
           intros x Hx Hx'. apply list_elem_of_singleton in Hx' as ->. done.
        -- intros c. rewrite elem_of_union, elem_of_singleton, elem_of_app,
             list_elem_of_singleton, (gen_processed _ _ _ Hgen). tauto.
        -- intros c Hin. apply elem_of_app in Hin as [Hin|Hin].
           ++ by apply (gen_eligible _ _ _ Hgen).
           ++ apply list_elem_of_singleton in Hin as ->. split; [done|].
              by exists us.
        -- rewrite map_app, (gen_clusters _ _ _ Hgen). simpl.
           do 2 f_equal. unfold selfClusterFor. f_equal.
           rewrite Ho. unfold originalTransportSocketOf.
           by rewrite (Hunt _ Hno).
        -- apply Forall2_app; [apply (gen_listeners _ _ _ Hgen)|].
           constructor; [|constructor]. by exists us.
      * intros c Hc'. simpl.
        rewrite not_elem_of_app, list_elem_of_singleton in Hc'.
        destruct Hc' as [Hc1 Hc2].
        rewrite Hother by done. by apply Hunt.
  - intros [= <- <- <-]. split; [apply Hrel'|].
    by destruct Hgen; split.
  - intros [= <- <- <-]. split; [apply Hrel' | done].
Qed.

(** ** All routes *)

Lemma visit_extends (order : list string) (rt : Route) :
  ∃ more, visit order rt = order ++ more.
Proof.
  unfold visit. destruct (eligibleCluster rt) as [c|].
  - case_decide; [exists [] | exists [c]]; by rewrite ?app_nil_r.
  - exists []. by rewrite app_nil_r.
Qed.

Lemma elem_of_visit (c : string) (order : list string) (rt : Route) :
  c ∈ visit order rt ↔ c ∈ order ∨ eligibleCluster rt = Some c.
Proof.
  unfold visit. destruct (eligibleCluster rt) as [c'|].
  - case_decide as Hin.
    + split; [by left|]. intros [?|[= ->]]; done.
    + rewrite elem_of_app, list_elem_of_singleton.
      split; (intros [?|?]; [by left | right; congruence]).
  - split; [by left | by intros [?|?]].
Qed.

Lemma elem_of_visitAll (c : string) (routes : list Route) (order : list string) :
  c ∈ visitAll order routes ↔
  c ∈ order ∨ ∃ rt, rt ∈ routes ∧ eligibleCluster rt = Some c.
Proof.
  unfold visitAll. revert order.
  induction routes as [|rt routes IH]; intros order; simpl.
  - split; [by left|]. intros [?|(rt & Hrt & _)]; [done|].
    by apply elem_of_nil in Hrt.
  - rewrite IH, elem_of_visit. split.
    + intros [[?|?]|(rt' & ? & ?)]; [by left | right | right].
      * exists rt. split; [by left | done].
      * exists rt'. split; [by right | done].
    + intros [?|(rt' & Hin & ?)]; [by left; left|].
      apply elem_of_cons in Hin as [->|Hin]; [by left; right|].
      right. by exists rt'.
Qed.

(** The invariant holds whenever the loop is left, and a loop that runs to
    its end has seen every route. *)
Lemma scanRoutes_inv (cl0 : list Cluster) (routes routes' : list Route)
    (order : list string) (st st' : ScanState) (fl : Flow) :
  Inv cl0 order st Next →
  scanRoutes st routes = (routes', st', fl) →
  ∃ order', Inv cl0 order' st' fl ∧ (∃ more, order' = order ++ more) ∧
    (fl = Next →
       order' = visitAll order routes ∧ routes' = map rewriteRoute routes).
Proof.
  unfold scanRoutes. revert routes' order st.
  induction routes as [|rt routes IH]; intros routes' order st Hinv; simpl.
  - intros [= <- <- <-]. exists order. split; [done|].
    split; [exists []; by rewrite app_nil_r | done].
  - destruct (processRoute st rt) as [[rt1 st1] fl1] eqn:Hrt.
    pose proof (processRoute_inv _ _ _ _ _ _ _ Hinv Hrt) as Hinv1.
    pose proof (processRoute_route st rt) as Hroute. rewrite Hrt in Hroute.
    simpl in Hroute. subst rt1.
    destruct fl1 as [| |e].
    + destruct (scan processRoute st1 routes) as [[routes1 st2] fl2] eqn:Hrest.
      intros [= <- <- <-].
      destruct (IH _ _ _ Hinv1 Hrest) as (order' & Hinv' & [more Hmore] & Hnext).
      exists order'. split; [done|]. split.
      * destruct (visit_extends order rt) as [more0 Hmore0].
        exists (more0 ++ more). by rewrite Hmore, Hmore0, app_assoc.
      * intros Hfl. destruct (Hnext Hfl) as [-> ->]. done.
    + intros [= <- <- <-]. exists order. split; [done|].
      split; [exists []; by rewrite app_nil_r | done].
    + intros [= <- <- <-]. exists order. split; [done|].
      split; [exists []; by rewrite app_nil_r | done].
Qed.

(** Whatever happens at a route or after it, the route is left as
    [rewriteRoute] says. *)
Lemma scanRoutes_cons (st : ScanState) (rt : Route) (post : list Route) :
  ∃ post', (scanRoutes st (rt :: post)).1.1 = rewriteRoute rt :: post' ∧
           length post' = length post.
Proof.
  unfold scanRoutes. simpl.
  pose proof (processRoute_route st rt) as Hroute.
  destruct (processRoute st rt) as [[rt1 st1] fl1]. simpl in Hroute. subst rt1.
  destruct fl1 as [| |e]; [|by exists post..].
  destruct (scan processRoute st1 post) as [[post1 st2] fl2] eqn:Hrest.
  exists post1. split; [done|]. by eapply scan_length.
Qed.

(** Splitting the run at an encountered route. *)
Lemma encountered_scan (cl0 : list Cluster) (rtConfigs : list RouteConfiguration)
    (pre post : list Route) (rt : Route) (st : ScanState) :
  encountered cl0 rtConfigs pre rt post st →
  ∃ order pre',
    Inv cl0 order st Next ∧ order = visitAll [] pre ∧
    length pre' = length pre ∧
    scanRoutes (initialState cl0) (allRoutes rtConfigs) =
      (let '(rest', st', fl) := scanRoutes st (rt :: post) in
       (pre' ++ rest', st', fl)).
Proof.
  intros [Hall (pre' & Hpre)].
  destruct (scanRoutes_inv cl0 _ _ _ _ _ _ (Inv_initial cl0) Hpre)
    as (order & Hinv & _ & Hnext).
  destruct (Hnext eq_refl) as [Horder _].
  exists order, pre'. split; [done|]. split; [done|].
  split; [by eapply scan_length|].
  rewrite Hall. unfold scanRoutes in *. rewrite scan_app, Hpre. done.
Qed.

(** ** Names *)

Lemma append_inj (p a b : string) : p +:+ a = p +:+ b → a = b.
Proof.
  induction p as [|ch p IH]; simpl; [done|]. intros [= H]. by apply IH.
Qed.

Lemma selfClusterOf_inj (a b : string) : selfClusterOf a = selfClusterOf b → a = b.
Proof. apply append_inj. Qed.

Lemma selfListenerOf_inj (a b : string) :
  selfListenerOf a = selfListenerOf b → a = b.
Proof. apply append_inj. Qed.

Lemma listenerFor_name (c : string) (l : Listener) :
  listenerFor c l → Listener_Name l = selfListenerOf c.
Proof.
  intros (us & _ & Hl). unfold generateForwardingTcpListener in Hl.
  destruct (MessageToAny _) as [e|any]; [done|]. by inversion Hl.
Qed.

(** Resources generated one per name, under names that tell the names
    apart: exactly one of them carries the name of [c]. *)
Lemma filter_generated {B : Type} (R : string → B → Prop) (key : B → string)
    (f : string → string) (order : list string) (xs : list B) (c : string) :
  (∀ a b, f a = f b → a = b) →
  (∀ c' x, R c' x → key x = f c') →
  Forall2 R order xs →
  NoDup order →
  (c ∈ order → ∃ x, filter (λ y, key y = f c) xs = [x] ∧ R c x) ∧
  (c ∉ order → filter (λ y, key y = f c) xs = []).
Proof.
  intros Hinj Hkey HF. induction HF as [|c0 x0 order xs HR HF IH]; intros Hnd.
  - split; [intros Hin; by apply elem_of_nil in Hin | done].
  - apply NoDup_cons in Hnd as [Hc0 Hnd]. destruct (IH Hnd) as [IHin IHout].
    split.
    + intros Hin. apply elem_of_cons in Hin as [->|Hin].
      * exists x0. rewrite filter_cons_True by (by apply Hkey).
        rewrite IHout by done. done.
      * rewrite filter_cons_False.
        -- by apply IHin.
        -- rewrite (Hkey _ _ HR). intros Heq. apply Hinj in Heq. by subst.
    + intros Hout. apply not_elem_of_cons in Hout as [Hne Hout].
      rewrite filter_cons_False; [by apply IHout|].
      rewrite (Hkey _ _ HR). intros Heq. apply Hinj in Heq. by subst.
Qed.

Lemma Forall2_map_eq {A B : Type} (g : A → B) (l : list A) :
  Forall2 (λ a b, b = g a) l (map g l).
Proof. induction l; simpl; by constructor. Qed.

(** The body of the loop at a tunneling-eligible route: the tests of
    plugin.go 62-82 are passed. *)
Lemma processRoute_eligible (st : ScanState) (rt : Route) (cluster : string)
    (us : Upstream UpstreamSslConfig) :
  tunnelingEligible rt cluster us →
  processRoute st rt =
  let rt' :=
    Route_setClusterSpecifier rt (RouteAction_Cluster (selfClusterOf cluster)) in
  if decide (cluster ∈ processedClusters st) then (rt', st, Next)
  else
    let '(clusters', originalTransportSocket, fl) :=
      relocateTransportSocket us cluster (liveClusters st) in
    match fl with
    | Next =>
        let generatedClusters' :=
          generatedClusters st ++
            [generateSelfCluster (selfClusterOf cluster) (selfPipeOf cluster)
               originalTransportSocket] in
        match generateForwardingTcpListener cluster (selfPipeOf cluster)
                (GetHttpProxyHostname_GetValue us) (tunnelingHeadersOf us) with
        | inl err =>
            (rt',
             {| generatedClusters := generatedClusters';
                generatedListeners := generatedListeners st;
                processedClusters := processedClusters st;
                liveClusters := clusters' |},
             ReturnError err)
        | inr forwardingTcpListener =>
            (rt',
             {| generatedClusters := generatedClusters';
                generatedListeners :=
                  generatedListeners st ++ [forwardingTcpListener];
                processedClusters := {[cluster]} ∪ processedClusters st;
                liveClusters := clusters' |},
             Next)
        end
    | _ =>
        (rt',
         {| generatedClusters := generatedClusters st;
            generatedListeners := generatedListeners st;
            processedClusters := processedClusters st;
            liveClusters := clusters' |},
         fl)
    end.
Proof.
  intros (<- & Hc & Hus & Hh). unfold processRoute.
  rewrite decide_False by done.
  unfold upstreamOf in Hus.
  destruct (ClusterToUpstreamRef _) as [e|ref]; [done|].
  destruct (Find _ _ _) as [e|us']; [done|].
  injection Hus as ->. by rewrite decide_False.
Qed.

(** An eligible route whose cluster is not in the input list, or whose
    tunnel transport socket can be built, does not end the pass with a
    partial result. *)
Lemma processRoute_eligible_flow (cl0 : list Cluster) (order : list string)
    (st st1 : ScanState) (rt rt1 : Route) (cluster : string)
    (us : Upstream UpstreamSslConfig) (fl1 : Flow) :
  Inv cl0 order st Next →
  tunnelingEligible rt cluster us →
  clusterNamed cluster cl0 = None ∨
    (∃ ts, connectTransportSocket us = (ts, Next)) →
  processRoute st rt = (rt1, st1, fl1) →
  fl1 ≠ ReturnPartial.
Proof.
  intros (_ & Hgen & Hunt) Hel Hok.
  rewrite (processRoute_eligible _ _ _ _ Hel). simpl.
  case_decide as Hp; [by intros [= <- <- <-]|].
  assert (Hno : cluster ∉ order).
  { intros Hin. by apply Hp, (gen_processed _ _ _ Hgen). }
  destruct (relocateTransportSocket us cluster (liveClusters st))
    as [[cls' orig] flr] eqn:Hrl.
  destruct (relocateTransportSocket_spec _ _ _ _ _ _ Hrl) as (_ & _ & _ & Hcl).
  rewrite (Hunt _ Hno) in Hcl.
  assert (flr = Next) as ->.
  { destruct (clusterNamed cluster cl0) as [cl|].
    - destruct Hcl as (ts & Hts & _).
      destruct Hok as [?|(ts' & Hts')]; [done|]. congruence.
    - by destruct Hcl. }
  destruct (generateForwardingTcpListener _ _ _ _); by intros [= <- <- <-].
Qed.

(** An eligible route that is encountered, in a call that returns no error:
    unless the tunnel's TLS resolution fails for it, its cluster name is
    among the processed ones when the call returns. *)
Lemma eligible_route_processed
    (inClusters : list Cluster) (inEndpoints : list ClusterLoadAssignment)
    (inRouteConfigurations : list RouteConfiguration)
    (inListeners : list Listener)
    (pre post : list Route) (rt : Route) (st : ScanState)
    (cluster : string) (us : Upstream UpstreamSslConfig) :
  encountered inClusters inRouteConfigurations pre rt post st →
  tunnelingEligible rt cluster us →
  clusterNamed cluster inClusters = None ∨
    (∃ ts, connectTransportSocket us = (ts, Next)) →
  let out := GeneratedResources inClusters inEndpoints
               inRouteConfigurations inListeners in
  outErr out = None →
  ∃ order st',
    Relocated inClusters order st' ∧ Generated inClusters order st' ∧
    cluster ∈ order ∧
    mutClusters out = liveClusters st' ∧
    outClusters out = generatedClusters st' ∧
    outListeners out = generatedListeners st'.
Proof.
  intros Henc Hel Hok out Herr.
  destruct (encountered_scan _ _ _ _ _ _ Henc)
    as (order0 & pre' & Hinv0 & _ & _ & Hscan).
  destruct (scanRoutes st (rt :: post)) as [[rest' st'] fl] eqn:Hrest.
  destruct (GeneratedResources_scanRoutes inClusters inEndpoints _ inListeners
              _ _ _ Hscan) as (_ & Hmut & _ & _ & Hout).
  fold out in Hmut, Hout.
  assert (Hfl : ∀ e, fl ≠ ReturnError e).
  { intros e ->. destruct Hout as (_ & _ & Herr'). congruence. }
  assert (Hres : outClusters out = generatedClusters st' ∧
                 outListeners out = generatedListeners st').
  { destruct fl; [by destruct Hout as (? & ? & _)..|]. by destruct (Hfl err). }
  destruct Hres as [Hcl Hls].
  unfold scanRoutes in Hrest. simpl in Hrest.
  destruct (processRoute st rt) as [[rt1 st1] fl1] eqn:Hrt.
  pose proof (processRoute_inv _ _ _ _ _ _ _ Hinv0 Hrt) as Hinv1.
  pose proof (processRoute_eligible_flow _ _ _ _ _ _ _ _ _ Hinv0 Hel Hok Hrt)
    as Hnp.
  destruct fl1 as [| |e]; [|done|].
  - destruct (scan processRoute st1 post) as [[post1 st2] fl2] eqn:Hpost.
    injection Hrest as <- <- <-.
    destruct (scanRoutes_inv _ _ _ _ _ _ _ Hinv1 Hpost)
      as (order' & Hinv' & [more ->] & _).
    exists (visit order0 rt ++ more), st2.
    assert (Hin : cluster ∈ visit order0 rt ++ more).
    { apply elem_of_app. left. apply elem_of_visit. right.
      apply eligibleCluster_Some. by exists us. }
    destruct Hinv' as [Hrel Hrest']. split; [done|].
    split; [|done].
    destruct fl2 as [| |e]; [by destruct Hrest' | done | by destruct (Hfl e)].
  - injection Hrest as <- <- <-. by destruct (Hfl e).
Qed.

(** A return at an encountered route ends the scan there. *)
Lemma encountered_return (cl0 : list Cluster)
    (rtConfigs : list RouteConfiguration) (pre post : list Route)
    (rt rt1 : Route) (st st1 : ScanState) (fl1 : Flow) :
  encountered cl0 rtConfigs pre rt post st →
  processRoute st rt = (rt1, st1, fl1) →
  fl1 ≠ Next →
  ∃ pre', length pre' = length pre ∧
    scanRoutes (initialState cl0) (allRoutes rtConfigs)
      = (pre' ++ rt1 :: post, st1, fl1).
Proof.
  intros Henc Hrt Hfl.
  destruct (encountered_scan _ _ _ _ _ _ Henc)
    as (order & pre' & _ & _ & Hlen & Hscan).
  exists pre'. split; [done|]. rewrite Hscan.
  unfold scanRoutes. simpl. rewrite Hrt. by destruct fl1.
Qed.

Lemma present_clusterNamed (cl0 : list Cluster) (order : list string)
    (st : ScanState) (cluster : string) :
  Relocated cl0 order st →
  cluster ∈ map Cluster_Name cl0 →
  ∃ cl, clusterNamed cluster (liveClusters st) = Some cl.
Proof.
  intros Hrel Hin.
  destruct (clusterNamed cluster (liveClusters st)) as [cl|] eqn:Hcl; [by exists cl|].
  apply clusterNamed_None in Hcl. by rewrite (rel_names _ _ _ Hrel) in Hcl.
Qed.

Lemma processRoute_softFailure (cl0 : list Cluster) (order : list string)
    (st : ScanState) (rt : Route) :
  Inv cl0 order st Next →
  softFailure cl0 st rt →
  ∃ rt1 st1, processRoute st rt = (rt1, st1, ReturnPartial) ∧
    generatedClusters st1 = generatedClusters st ∧
    generatedListeners st1 = generatedListeners st.
Proof.
  intros (Hrel & _ & _) [e Hc He | ref e Hc Href He | c us ssl e Hel Hp Hin Hssl He].
  - exists rt, st. unfold processRoute.
    rewrite decide_False by done. by rewrite He.
  - exists rt, st. unfold processRoute.
    rewrite decide_False by done. by rewrite Href, He.
  - rewrite (processRoute_eligible _ _ _ _ Hel). simpl.
    rewrite decide_False by done.
    destruct (relocateTransportSocket us c (liveClusters st))
      as [[cls' orig] flr] eqn:Hrl.
    destruct (relocateTransportSocket_spec _ _ _ _ _ _ Hrl) as (_ & _ & _ & Hcl).
    destruct (present_clusterNamed _ _ _ _ Hrel Hin) as [cl Hcl'].
    rewrite Hcl' in Hcl. destruct Hcl as (ts & Hts & _).
    unfold connectTransportSocket in Hts. rewrite Hssl, He in Hts.
    injection Hts as <- <-. by eexists _, _.
Qed.

Lemma generateForwardingTcpListener_tcpProxyFor (cluster : string)
    (us : Upstream UpstreamSslConfig) :
  generateForwardingTcpListener cluster (selfPipeOf cluster)
    (GetHttpProxyHostname_GetValue us) (tunnelingHeadersOf us) =
  match MessageToAny (Message_TcpProxy (tcpProxyFor cluster us)) with
  | inl err => inl err
  | inr typedConfig =>
      inr {| Listener_Name := selfListenerOf cluster;
             Listener_Address := Some
               (Address_Pipe {| Pipe_Path := selfPipeOf cluster |});
             FilterChains :=
               [ {| Filters :=
                      [ {| Filter_Name := "tcp";
                           Filter_TypedConfig := Some typedConfig |} ] |} ] |}
  end.
Proof. done. Qed.

Lemma processRoute_serializationFailure (cl0 : list Cluster)
    (order : list string) (st : ScanState) (rt : Route) (err : error) :
  Inv cl0 order st Next →
  serializationFailure cl0 st rt err →
  ∃ rt1 st1, processRoute st rt = (rt1, st1, ReturnError err).
Proof.
  intros (Hrel & Hgen & Hunt)
    [c us ssl cfg Hel Hp Hin Hssl Hcfg He | c us Hel Hp Hok He];
    rewrite (processRoute_eligible _ _ _ _ Hel); simpl;
    rewrite decide_False by done;
    destruct (relocateTransportSocket us c (liveClusters st))
      as [[cls' orig] flr] eqn:Hrl;
    destruct (relocateTransportSocket_spec _ _ _ _ _ _ Hrl) as (_ & _ & _ & Hcl).
  - destruct (present_clusterNamed _ _ _ _ Hrel Hin) as [cl Hcl'].
    rewrite Hcl' in Hcl. destruct Hcl as (ts & Hts & _).
    unfold connectTransportSocket in Hts. rewrite Hssl, Hcfg, He in Hts.
    injection Hts as <- <-. by eexists _, _.
  - assert (flr = Next) as ->.
    { destruct (clusterNamed c (liveClusters st)) as [cl|] eqn:Hcl'.
      - destruct Hcl as (ts & Hts & _).
        destruct Hok as [Hout | (ts' & Hts')]; [|congruence].
        apply clusterNamed_None in Hout.
        assert (c ∉ order).
        { intros Ho. by apply Hp, (gen_processed _ _ _ Hgen). }
        rewrite <- (Hunt c) in Hout by done. congruence.
      - by destruct Hcl. }
    rewrite generateForwardingTcpListener_tcpProxyFor, He. by eexists _, _.
Qed.

(** For a processed name, the generated resources hold its self-cluster and
    its self-listener, once each. *)
Lemma Generated_filter (cl0 : list Cluster) (order : list string)
    (st : ScanState) (cluster : string) :
  Generated cl0 order st →
  cluster ∈ order →
  filter (λ c, Cluster_Name c = selfClusterOf cluster) (generatedClusters st)
    = [selfClusterFor cl0 cluster] ∧
  ∃ l, filter (λ l, Listener_Name l = selfListenerOf cluster)
         (generatedListeners st) = [l] ∧ listenerFor cluster l.
Proof.
  intros Hgen Hin. split.
  - rewrite (gen_clusters _ _ _ Hgen).
    destruct (filter_generated (λ c x, x = selfClusterFor cl0 c)
                Cluster_Name selfClusterOf order
                (map (selfClusterFor cl0) order) cluster
                selfClusterOf_inj) as [Hone _].
    + by intros c' x ->.
    + apply Forall2_map_eq.
    + apply (gen_NoDup _ _ _ Hgen).
    + by destruct (Hone Hin) as (x & Hx & ->).
  - destruct (filter_generated listenerFor Listener_Name selfListenerOf order
                (generatedListeners st) cluster selfListenerOf_inj
                listenerFor_name (gen_listeners _ _ _ Hgen)
                (gen_NoDup _ _ _ Hgen)) as [Hone _].
    by apply Hone.
Qed.

Lemma rewriteRoute_eligible (rt : Route) (cluster : string)
    (us : Upstream UpstreamSslConfig) :
  tunnelingEligible rt cluster us →
  rewriteRoute rt =
    Route_setClusterSpecifier rt (RouteAction_Cluster (selfClusterOf cluster)) ∧
  RouteAction_GetCluster (Route_GetRoute (rewriteRoute rt))
    = selfClusterOf cluster.
Proof.
  intros Hel. unfold rewriteRoute.
  assert (eligibleCluster rt = Some cluster) as ->.
  { apply eligibleCluster_Some. by exists us. }
  split; [done|].
  destruct Hel as (Hc & Hne & _).
  unfold Route_setClusterSpecifier, Route_GetRoute, RouteAction_GetCluster in *.
  destruct (Action rt) as [[a|h|s]|]; simpl; congruence.
Qed.

(** The route at an encountered place, when the call is over. *)
Lemma encountered_route (inClusters : list Cluster)
    (inEndpoints : list ClusterLoadAssignment)
    (inRouteConfigurations : list RouteConfiguration)
    (inListeners : list Listener)
    (pre post : list Route) (rt : Route) (st : ScanState) :
  encountered inClusters inRouteConfigurations pre rt post st →
  allRoutes (mutRouteConfigurations
               (GeneratedResources inClusters inEndpoints
                  inRouteConfigurations inListeners)) !! length pre
    = Some (rewriteRoute rt).
Proof.
  intros Henc.
  destruct (encountered_scan _ _ _ _ _ _ Henc)
    as (order & pre' & _ & _ & Hlen & Hscan).
  destruct (scanRoutes_cons st rt post) as (post' & Hcons & _).
  destruct (scanRoutes st (rt :: post)) as [[rest' st'] fl].
  simpl in Hcons. subst rest'.
  destruct (GeneratedResources_scanRoutes inClusters inEndpoints _ inListeners
              _ _ _ Hscan) as (-> & _).
  by apply list_lookup_middle.
Qed.

Lemma map_lookup_Some {A B : Type} (f : A → B) (l : list A) (i : nat) (x : A) :
  l !! i = Some x → map f l !! i = Some (f x).
Proof.
  revert i. induction l as [|y l IH]; intros [|i]; simpl; try done.
  - by intros [= ->].
  - apply IH.
Qed.

Lemma fold_left_append_map {A B : Type} (g : A → B) (l : list A) (acc : list B) :
  fold_left (λ acc x, acc ++ [g x]) l acc = acc ++ map g l.
Proof.
  revert acc. induction l as [|x l IH]; intros acc; simpl.
  - by rewrite app_nil_r.
  - by rewrite IH, <- app_assoc.
Qed.

(** The loop of plugin.go 84-93 maps the CONNECT headers one to one. *)
Lemma tunnelingHeadersOf_map (us : Upstream UpstreamSslConfig) :
  tunnelingHeadersOf us =
  map (λ header,
         {| HeaderValueOption_Header := Some
              {| HeaderValue_Key := header_Key header;
                 HeaderValue_Value := header_Value header |};
            HeaderValueOption_Append := Some false |})
      (HttpConnectHeaders us).
Proof. unfold tunnelingHeadersOf. by rewrite fold_left_append_map. Qed.

(** What the call returns was generated for the names of some order,
    one cluster and one listener per name. *)
Lemma GeneratedResources_order
    (inClusters : list Cluster) (inEndpoints : list ClusterLoadAssignment)
    (inRouteConfigurations : list RouteConfiguration)
    (inListeners : list Listener) :
  let out := GeneratedResources inClusters inEndpoints
               inRouteConfigurations inListeners in
  ∃ order, NoDup order ∧
    outClusters out = map (selfClusterFor inClusters) order ∧
    Forall2 listenerFor order (outListeners out).
Proof.
  intros out.
  destruct (scanRoutes (initialState inClusters)
              (allRoutes inRouteConfigurations)) as [[routes' st] fl] eqn:Hscan.
  destruct (GeneratedResources_scanRoutes inClusters inEndpoints _ inListeners
              _ _ _ Hscan) as (_ & _ & _ & _ & Hout).
  fold out in Hout.
  destruct (scanRoutes_inv _ _ _ _ _ _ _ (Inv_initial inClusters) Hscan)
    as (order & (_ & Hinv) & _).
  destruct fl as [| |e].
  - destruct Hinv as [Hgen _]. destruct Hout as (-> & -> & _).
    exists order. by destruct Hgen.
  - destruct Hout as (-> & -> & _). exists order. by destruct Hinv.
  - destruct Hout as (-> & -> & _). exists []. split; [constructor|].
    split; [done | constructor].
Qed.

Lemma processRoute_notTunneling (st : ScanState) (rt : Route) :
  notTunneling rt → processRoute st rt = (rt, st, Next).
Proof.
  intros [a ws Ha Hcs | a h Ha Hcs | a c us Ha Hcs Hus Hh];
    unfold processRoute; rewrite Ha; simpl; rewrite Hcs; simpl;
    [done | done |].
  case_decide as Hc; [done|].
  unfold upstreamOf in Hus.
  destruct (ClusterToUpstreamRef c) as [e|ref]; [done|].
  destruct (Find _ _ _) as [e|us']; [done|].
  injection Hus as ->. by rewrite decide_True.
Qed.

(** The same routes without the encountered one. *)
Lemma encountered_without (cl0 : list Cluster)
    (rtConfigs without : list RouteConfiguration)
    (pre post : list Route) (rt : Route) (st : ScanState) :
  encountered cl0 rtConfigs pre rt post st →
  allRoutes without = pre ++ post →
  ∃ pre', length pre' = length pre ∧
    scanRoutes (initialState cl0) (allRoutes rtConfigs) =
      (let '(rest', st', fl) := scanRoutes st (rt :: post) in
       (pre' ++ rest', st', fl)) ∧
    scanRoutes (initialState cl0) (allRoutes without) =
      (let '(post', st', fl) := scanRoutes st post in
       (pre' ++ post', st', fl)).
Proof.
  intros [Hall (pre' & Hpre)] Hwithout. exists pre'.
  split; [by eapply scan_length|].
  rewrite Hall, Hwithout. unfold scanRoutes in *.
  by rewrite !scan_app, Hpre.
Qed.

(** Where the plugin does not rewrite a route, what it does there does not
    depend on the locals: it goes on or returns the partial result, and
    changes nothing. *)
Lemma processRoute_ineligible (st st2 : ScanState) (rt : Route) :
  eligibleCluster rt = None →
  ∃ fl, (fl = Next ∨ fl = ReturnPartial) ∧
    processRoute st rt = (rt, st, fl) ∧ processRoute st2 rt = (rt, st2, fl).
Proof.
  unfold eligibleCluster, upstreamOf, processRoute.
  case_decide; [by exists Next; auto|].
  destruct (ClusterToUpstreamRef _) as [e|ref]; [by exists ReturnPartial; auto|].
  destruct (Find _ _ _) as [e|us]; [by exists ReturnPartial; auto|].
  case_decide; [by exists Next; auto | done].
Qed.



(** ** The names behind the results *)

(** The names of the invariant are cluster names of eligible routes that
    were scanned. *)
Lemma scanRoutes_sound (cl0 : list Cluster) (routes routes' : list Route)
    (order : list string) (st st' : ScanState) (fl : Flow) :
  Inv cl0 order st Next →
  scanRoutes st routes = (routes', st', fl) →
  ∃ order', Inv cl0 order' st' fl ∧
    ∀ c, c ∈ order' →
      c ∈ order ∨ ∃ rt, rt ∈ routes ∧ eligibleCluster rt = Some c.
Proof.
  unfold scanRoutes. revert routes' order st.
  induction routes as [|rt routes IH]; intros routes' order st Hinv; simpl.
  - intros [= <- <- <-]. exists order. split; [done | by left].
  - destruct (processRoute st rt) as [[rt1 st1] fl1] eqn:Hrt.
    pose proof (processRoute_inv _ _ _ _ _ _ _ Hinv Hrt) as Hinv1.
    destruct fl1 as [| |e].
    + destruct (scan processRoute st1 routes) as [[routes1 st2] fl2] eqn:Hrest.
      intros [= <- <- <-].
      destruct (IH _ _ _ Hinv1 Hrest) as (order' & Hinv' & Hsound).
      exists order'. split; [done|]. intros c Hc.
      destruct (Hsound c Hc) as [Hv | (rt' & Hin & Hel)].
      * apply elem_of_visit in Hv as [Ho | Hel]; [by left|].
        right. exists rt. split; [by left | done].
      * right. exists rt'. split; [by right | done].
    + intros [= <- <- <-]. exists order. split; [done | by left].
    + intros [= <- <- <-]. exists order. split; [done | by left].
Qed.

(** The generated clusters tell the names they were generated for. *)
Lemma Generated_order_unique (cl0 : list Cluster) (order1 order2 : list string)
    (st : ScanState) :
  Generated cl0 order1 st → Generated cl0 order2 st → order1 = order2.
Proof.
  intros H1 H2.
  pose proof (gen_clusters _ _ _ H1) as E. rewrite (gen_clusters _ _ _ H2) in E.
  clear H1 H2. revert order1 E.
  induction order2 as [|y ys IH]; intros [|x xs]; simpl; try done.
  intros E.
  assert (Hhead : selfClusterOf y = selfClusterOf x)
    by exact (f_equal (λ l, from_option Cluster_Name "" (head l)) E).
  apply selfClusterOf_inj in Hhead. subst y. f_equal.
  apply IH. exact (f_equal tail E).
Qed.

Lemma firstOccurrences_snoc (names : list string) (name : string) :
  firstOccurrences (names ++ [name]) =
  if decide (name ∈ firstOccurrences names) then firstOccurrences names
  else firstOccurrences names ++ [name].
Proof.
  unfold firstOccurrences. rewrite reverse_snoc. simpl.
  destruct (decide_rel elem_of name (reverse names)) as [Hin|Hout].
  - rewrite decide_True; [done|].
    by rewrite elem_of_reverse, elem_of_remove_dups.
  - rewrite decide_False; [by rewrite reverse_cons|].
    by rewrite elem_of_reverse, elem_of_remove_dups.
Qed.

Lemma visitAll_firstOccurrences (routes : list Route) (names : list string) :
  visitAll (firstOccurrences names) routes
  = firstOccurrences (names ++ omap eligibleCluster routes).
Proof.
  unfold visitAll. revert names.
  induction routes as [|rt routes IH]; intros names; simpl.
  - by rewrite app_nil_r.
  - unfold visit at 2. destruct (eligibleCluster rt) as [c|]; [|apply IH].
    rewrite <- firstOccurrences_snoc, IH. by rewrite <- app_assoc.
Qed.

(** What the call returns was generated for the names of an order that the
    routes determine: its names are cluster names of eligible routes, it
    starts with the names of the routes that were scanned without a return,
    and it is the list of all of them when the scan runs through. *)
Lemma GeneratedResources_order_of_routes
    (inClusters : list Cluster) (inEndpoints : list ClusterLoadAssignment)
    (inRouteConfigurations : list RouteConfiguration)
    (inListeners : list Listener) :
  let out := GeneratedResources inClusters inEndpoints
               inRouteConfigurations inListeners in
  ∃ order, NoDup order ∧
    (∀ c, c ∈ order →
       ∃ rt us, rt ∈ allRoutes inRouteConfigurations ∧
                tunnelingEligible rt c us) ∧
    (∀ rtConfigs' st,
       scanRouteConfigurations inClusters inRouteConfigurations
         = (rtConfigs', st, Next) →
       order = firstOccurrences
                 (omap eligibleCluster (allRoutes inRouteConfigurations))) ∧
    (∀ pre rt post st,
       encountered inClusters inRouteConfigurations pre rt post st →
       outErr out = None →
       ∃ more, order = firstOccurrences (omap eligibleCluster pre) ++ more) ∧
    outClusters out = map (selfClusterFor inClusters) order ∧
    Forall2 listenerFor order (outListeners out).
Proof.
  intros out.
  destruct (scanRoutes (initialState inClusters)
              (allRoutes inRouteConfigurations)) as [[routes' st] fl] eqn:Hscan.
  destruct (GeneratedResources_scanRoutes inClusters inEndpoints _ inListeners
              _ _ _ Hscan) as (_ & _ & _ & _ & Hout).
  fold out in Hout.
  assert (Hflat : ∀ rtConfigs' st0 fl0,
            scanRouteConfigurations inClusters inRouteConfigurations
              = (rtConfigs', st0, fl0) → fl0 = fl).
  { intros rtConfigs' st0 fl0 H0.
    pose proof (scan_processRouteConfiguration (initialState inClusters)
                  inRouteConfigurations) as Hf.
    unfold scanRouteConfigurations in H0. rewrite H0, Hscan in Hf.
    by injection Hf as _ _ <-. }
  assert (Hprefix : ∀ order, Generated inClusters order st →
            ∀ pre rt post st0,
              encountered inClusters inRouteConfigurations pre rt post st0 →
              outErr out = None →
              ∃ more, order = firstOccurrences (omap eligibleCluster pre) ++ more).
  { intros order Hgen pre rt post st0 Henc Herr.
    destruct (encountered_scan _ _ _ _ _ _ Henc)
      as (order0 & pre' & Hinv0 & Horder0 & _ & Hsplit).
    rewrite Hscan in Hsplit.
    destruct (scanRoutes st0 (rt :: post)) as [[rest' st'] fl'] eqn:Hrest.
    injection Hsplit as _ -> ->.
    destruct (scanRoutes_inv _ _ _ _ _ _ _ Hinv0 Hrest)
      as (order2 & [_ Hinv2] & [more Hmore] & _).
    assert (Hgen2 : Generated inClusters order2 st').
    { destruct fl' as [| |e]; [by destruct Hinv2 | done |].
      destruct Hout as (_ & _ & Herr'). congruence. }
    exists more.
    rewrite (Generated_order_unique _ _ _ _ Hgen Hgen2), Hmore, Horder0.
    f_equal. apply (visitAll_firstOccurrences pre []). }
  destruct (scanRoutes_inv _ _ _ _ _ _ _ (Inv_initial inClusters) Hscan)
    as (order & [_ Hinv] & _ & Hnext).
  destruct (scanRoutes_sound _ _ _ _ _ _ _ (Inv_initial inClusters) Hscan)
    as (order' & [_ Hinv'] & Hsound).
  assert (Heligible : ∀ order0, Generated inClusters order0 st →
            Generated inClusters order' st →
            ∀ c, c ∈ order0 →
              ∃ rt us, rt ∈ allRoutes inRouteConfigurations ∧
                       tunnelingEligible rt c us).
  { intros order0 Hgen0 Hgen' c Hc.
    rewrite (Generated_order_unique _ _ _ _ Hgen0 Hgen') in Hc.
    destruct (Hsound c Hc) as [Hnil | (rt & Hrt & Hel)];
      [by apply elem_of_nil in Hnil|].
    apply eligibleCluster_Some in Hel as [us Hel]. by exists rt, us. }
  destruct fl as [| |e].
  - destruct Hinv as [Hgen _]. destruct Hinv' as [Hgen' _].
    destruct Hout as (Hcl & Hls & _). exists order.
    split; [by destruct Hgen|]. split; [by apply Heligible|].
    split.
    { intros _ _ _. destruct (Hnext eq_refl) as [-> _].
      apply (visitAll_firstOccurrences _ []). }
    split; [by apply Hprefix|].
    rewrite Hcl, Hls. by destruct Hgen.
  - destruct Hout as (Hcl & Hls & _). exists order.
    split; [by destruct Hinv|]. split; [by apply Heligible|].
    split; [intros ? ? H0; by apply Hflat in H0|].
    split; [by apply Hprefix|].
    rewrite Hcl, Hls. by destruct Hinv.
  - destruct Hout as (Hcl & Hls & Herr). exists [].
    split; [constructor|].
    split; [intros c Hc; by apply elem_of_nil in Hc|].
    split; [intros ? ? H0; by apply Hflat in H0|].
    split; [intros ? ? ? ? _ Hnone; congruence|].
    rewrite Hcl, Hls. split; [done | constructor].
Qed.

(** The self-listener of a cluster name, field by field. *)
Lemma listenerFor_fields (cluster : string) (l : Listener) :
  listenerFor cluster l →
  ∃ us typedConfig, upstreamOf cluster = Some us ∧
    MessageToAny (Message_TcpProxy (tcpProxyFor cluster us)) = inr typedConfig ∧
    l = {| Listener_Name := "solo_io_generated_self_listener_" +:+ cluster;
           Listener_Address := Some
             (Address_Pipe {| Pipe_Path := "@/" +:+ cluster |});
           FilterChains :=
             [ {| Filters :=
                    [ {| Filter_Name := "tcp";
                         Filter_TypedConfig := Some typedConfig |} ] |} ] |}.
Proof.
  intros (us & Hus & Hl).
  rewrite generateForwardingTcpListener_tcpProxyFor in Hl.
  destruct (MessageToAny _) as [e|typedConfig] eqn:Hany; [done|].
  injection Hl as <-. by exists us, typedConfig.
Qed.


(** ** The properties *)

(** C1.  When the scan runs through all route configurations without
    returning early, every cluster name that some tunneling-eligible route
    refers to has exactly one generated cluster under its self-cluster name
    (the self-cluster of that name) and exactly one generated listener under
    its self-listener name, however many routes refer to it. *)
Theorem one_self_pair_per_cluster
    (inClusters : list Cluster) (inEndpoints : list ClusterLoadAssignment)
    (inRouteConfigurations rtConfigs' : list RouteConfiguration)
    (inListeners : list Listener) (st : ScanState)
    (rt : Route) (cluster : string) (us : Upstream UpstreamSslConfig) :
  scanRouteConfigurations inClusters inRouteConfigurations
    = (rtConfigs', st, Next) →
  rt ∈ allRoutes inRouteConfigurations →
  tunnelingEligible rt cluster us →
  let out := GeneratedResources inClusters inEndpoints
               inRouteConfigurations inListeners in
  outErr out = None ∧
  filter (λ c, Cluster_Name c = selfClusterOf cluster) (outClusters out)
    = [selfClusterFor inClusters cluster] ∧
  ∃ l, filter (λ l, Listener_Name l = selfListenerOf cluster) (outListeners out)
         = [l] ∧ listenerFor cluster l.
Proof.
  intros Hscan Hrt Hel out.
  pose proof (scan_processRouteConfiguration (initialState inClusters)
                inRouteConfigurations) as Hflat.
  unfold scanRouteConfigurations in Hscan. rewrite Hscan in Hflat.
  destruct (GeneratedResources_scanRoutes inClusters inEndpoints _ inListeners
              _ _ _ Hflat) as (_ & _ & _ & _ & Hcl & Hls & Herr).
  fold out in Hcl, Hls, Herr.
  destruct (scanRoutes_inv _ _ _ _ _ _ _ (Inv_initial inClusters) Hflat)
    as (order & (_ & Hgen & _) & _ & Hnext).
  destruct (Hnext eq_refl) as [Horder _].
  split; [done|]. rewrite Hcl, Hls.
  apply (Generated_filter inClusters order); [done|].
  rewrite Horder. apply elem_of_visitAll. right. exists rt.
  split; [done|]. apply eligibleCluster_Some. by exists us.
Qed.




(** C3.  When a route is encountered at which the reference does not
    parse, the upstream is not found, or the tunnel's SSL configuration does
    not resolve, the call returns a nil error together with exactly the
    clusters and listeners generated before that route, and the routes after
    it are left as they were. *)
Theorem soft_failure_returns_partial_result
    (inClusters : list Cluster) (inEndpoints : list ClusterLoadAssignment)
    (inRouteConfigurations : list RouteConfiguration)
    (inListeners : list Listener)
    (pre post : list Route) (rt : Route) (st : ScanState) :
  encountered inClusters inRouteConfigurations pre rt post st →
  softFailure inClusters st rt →
  let out := GeneratedResources inClusters inEndpoints
               inRouteConfigurations inListeners in
  outErr out = None ∧
  outClusters out = generatedClusters st ∧
  outListeners out = generatedListeners st ∧
  outEndpoints out = [] ∧ outRouteConfigurations out = [] ∧
  drop (S (length pre)) (allRoutes (mutRouteConfigurations out)) = post.
Proof.
  intros Henc Hfail out.
  destruct (encountered_scan _ _ _ _ _ _ Henc) as (order & _ & Hinv & _).
  destruct (processRoute_softFailure _ _ _ _ Hinv Hfail)
    as (rt1 & st1 & Hrt & Hcl & Hls).
  destruct (encountered_return _ _ _ _ _ _ _ _ _ Henc Hrt) as (pre' & Hlen & Hscan);
    [done|].
  destruct (GeneratedResources_scanRoutes inClusters inEndpoints _ inListeners
              _ _ _ Hscan) as (Hroutes & _ & Hep & Hrc & Hc & Hl & Herr).
  fold out in Hroutes, Hep, Hrc, Hc, Hl, Herr.
  rewrite Hc, Hl, Hcl, Hls, Hroutes. repeat split; try done.
  rewrite <- Hlen. replace (S (length pre')) with (length pre' + 1) by lia.
  rewrite <- drop_drop, drop_app_length. done.
Qed.

(** C4.  When a route is encountered at which serialising the resolved
    tunnel TLS configuration or the TCP proxy configuration fails, the call
    returns that error, and all four resource results are nil, whatever was
    generated before. *)
Theorem serialization_failure_returns_error
    (inClusters : list Cluster) (inEndpoints : list ClusterLoadAssignment)
    (inRouteConfigurations : list RouteConfiguration)
    (inListeners : list Listener)
    (pre post : list Route) (rt : Route) (st : ScanState) (err : error) :
  encountered inClusters inRouteConfigurations pre rt post st →
  serializationFailure inClusters st rt err →
  let out := GeneratedResources inClusters inEndpoints
               inRouteConfigurations inListeners in
  outErr out = Some err ∧
  outClusters out = [] ∧ outEndpoints out = [] ∧
  outRouteConfigurations out = [] ∧ outListeners out = [].
Proof.
  intros Henc Hfail out.
  destruct (encountered_scan _ _ _ _ _ _ Henc) as (order & _ & Hinv & _).
  destruct (processRoute_serializationFailure _ _ _ _ _ Hinv Hfail)
    as (rt1 & st1 & Hrt).
  destruct (encountered_return _ _ _ _ _ _ _ _ _ Henc Hrt) as (pre' & Hlen & Hscan);
    [done|].
  destruct (GeneratedResources_scanRoutes inClusters inEndpoints _ inListeners
              _ _ _ Hscan) as (_ & _ & Hep & Hrc & Hc & Hl & Herr).
  done.
Qed.


(** C5.  A tunneling-eligible route that is encountered before any abort
    is, when the call is over, the same route with its action targeting the
    self-cluster name.  This does not depend on the processed set: when the
    cluster name is already in it, the rewrite is all the iteration does. *)
Theorem eligible_route_rewritten
    (inClusters : list Cluster) (inEndpoints : list ClusterLoadAssignment)
    (inRouteConfigurations : list RouteConfiguration)
    (inListeners : list Listener)
    (pre post : list Route) (rt : Route) (st : ScanState)
    (cluster : string) (us : Upstream UpstreamSslConfig) :
  encountered inClusters inRouteConfigurations pre rt post st →
  tunnelingEligible rt cluster us →
  let out := GeneratedResources inClusters inEndpoints
               inRouteConfigurations inListeners in
  let rt' :=
    Route_setClusterSpecifier rt (RouteAction_Cluster (selfClusterOf cluster)) in
  allRoutes (mutRouteConfigurations out) !! length pre = Some rt' ∧
  RouteAction_GetCluster (Route_GetRoute rt') = selfClusterOf cluster ∧
  (cluster ∈ processedClusters st → processRoute st rt = (rt', st, Next)).
Proof.
  intros Henc Hel out rt'.
  destruct (rewriteRoute_eligible _ _ _ Hel) as [Hrw Hget].
  split; [|split].
  - unfold out. rewrite (encountered_route _ _ _ _ _ _ _ _ Henc). by rewrite Hrw.
  - unfold rt'. by rewrite <- Hrw.
  - intros Hp. rewrite (processRoute_eligible _ _ _ _ Hel). simpl.
    by rewrite decide_True.
Qed.


(** C6.  The clusters and the listeners that a call returns come in pairs,
    one pair per original cluster name [c] of a list [order] without
    duplicates.  The routes determine the list: its names are cluster names
    of tunneling-eligible routes of the input; in a call that returns no
    error it starts with the names of the routes that were encountered
    before any abort, in the order of their first route; and when the scan
    runs through all route configurations it is the list of all of them.
    The cluster of [c] is named "solo_io_generated_self_cluster_" + [c], and
    its load assignment has one locality with one endpoint, whose address is
    the pipe "@/" + [c].  The listener of [c] is named
    "solo_io_generated_self_listener_" + [c], is bound to the same pipe
    "@/" + [c], and its one filter carries the serialised TCP proxy
    configuration with statistics prefix "soloioTcpStats" + [c] and cluster
    [c]. *)
Theorem generated_pair_closes_the_loop
    (inClusters : list Cluster) (inEndpoints : list ClusterLoadAssignment)
    (inRouteConfigurations : list RouteConfiguration)
    (inListeners : list Listener) :
  let out := GeneratedResources inClusters inEndpoints
               inRouteConfigurations inListeners in
  ∃ order : list string, NoDup order ∧
    (∀ c, c ∈ order →
       ∃ rt us, rt ∈ allRoutes inRouteConfigurations ∧
                tunnelingEligible rt c us) ∧
    (∀ pre rt post st,
       encountered inClusters inRouteConfigurations pre rt post st →
       outErr out = None →
       ∃ more, order = firstOccurrences (omap eligibleCluster pre) ++ more) ∧
    (∀ rtConfigs' st,
       scanRouteConfigurations inClusters inRouteConfigurations
         = (rtConfigs', st, Next) →
       order = firstOccurrences
                 (omap eligibleCluster (allRoutes inRouteConfigurations))) ∧
    Forall2 (λ c cluster,
               Cluster_Name cluster = "solo_io_generated_self_cluster_" +:+ c ∧
               LoadAssignment cluster = Some
                 {| ClusterName := "solo_io_generated_self_cluster_" +:+ c;
                    Endpoints :=
                      [ {| LbEndpoints :=
                             [ {| LbEndpoint_Endpoint := Some
                                    {| Endpoint_Address := Some
                                         (Address_Pipe
                                            {| Pipe_Path := "@/" +:+ c |}) |}
                               |} ] |} ] |} ∧
               endpointPipes cluster = ["@/" +:+ c])
            order (outClusters out) ∧
    Forall2 (λ c listener,
               Listener_Name listener = "solo_io_generated_self_listener_" +:+ c ∧
               Listener_Address listener
                 = Some (Address_Pipe {| Pipe_Path := "@/" +:+ c |}) ∧
               ∃ cfg typedConfig,
                 MessageToAny (Message_TcpProxy cfg) = inr typedConfig ∧
                 StatPrefix cfg = "soloioTcpStats" +:+ c ∧
                 TcpProxy_Cluster cfg = Some c ∧
                 FilterChains listener =
                   [ {| Filters :=
                          [ {| Filter_Name := "tcp";
                               Filter_TypedConfig := Some typedConfig |} ] |} ])
            order (outListeners out).
Proof.
  intros out.
  destruct (GeneratedResources_order_of_routes inClusters inEndpoints
              inRouteConfigurations inListeners)
    as (order & Hnd & Hsound & Hfull & Hprefix & Hcl & Hls).
  fold out in Hprefix, Hcl, Hls. exists order.
  split; [done|]. split; [done|]. split; [done|]. split; [done|]. split.
  - rewrite Hcl.
    eapply Forall2_impl; [apply Forall2_map_eq|].
    intros c x ->. done.
  - eapply Forall2_impl; [apply Hls|].
    intros c l Hl.
    destruct (listenerFor_fields _ _ Hl) as (us & typedConfig & _ & Hany & ->).
    repeat split.
    by exists (tcpProxyFor c us), typedConfig.
Qed.

(** C10.  Every generated listener carries the serialised TCP proxy
    configuration of the upstream of its cluster; the [HeadersToAdd] of that
    configuration has as many entries as the upstream has CONNECT headers,
    and its i-th entry has key and value of the i-th CONNECT header, with
    [Append] set to false. *)
Theorem connect_headers_carried_in_order
    (inClusters : list Cluster) (inEndpoints : list ClusterLoadAssignment)
    (inRouteConfigurations : list RouteConfiguration)
    (inListeners : list Listener) (listener : Listener) :
  listener ∈ outListeners (GeneratedResources inClusters inEndpoints
                             inRouteConfigurations inListeners) →
  ∃ cluster us cfg tunnel typedConfig,
    upstreamOf cluster = Some us ∧
    MessageToAny (Message_TcpProxy cfg) = inr typedConfig ∧
    FilterChains listener =
      [ {| Filters := [ {| Filter_Name := "tcp";
                           Filter_TypedConfig := Some typedConfig |} ] |} ] ∧
    TcpProxy_Cluster cfg = Some cluster ∧
    TunnelingConfig cfg = Some tunnel ∧
    length (HeadersToAdd tunnel) = length (HttpConnectHeaders us) ∧
    ∀ (i : nat) (header : UpstreamHeaderValue),
      HttpConnectHeaders us !! i = Some header →
      HeadersToAdd tunnel !! i =
        Some {| HeaderValueOption_Header := Some
                  {| HeaderValue_Key := header_Key header;
                     HeaderValue_Value := header_Value header |};
                HeaderValueOption_Append := Some false |}.
Proof.
  intros Hin.
  destruct (GeneratedResources_order inClusters inEndpoints
              inRouteConfigurations inListeners) as (order & _ & _ & Hls).
  apply list_elem_of_lookup in Hin as [k Hk].
  destruct (Forall2_lookup_r _ _ _ _ _ Hls Hk) as (c & _ & us & Hus & Hl).
  rewrite generateForwardingTcpListener_tcpProxyFor in Hl.
  destruct (MessageToAny _) as [e|typedConfig] eqn:Hany; [done|].
  injection Hl as <-.
  exists c, us, (tcpProxyFor c us), 
    {| Hostname := GetHttpProxyHostname_GetValue us;
       HeadersToAdd := tunnelingHeadersOf us |}, typedConfig.
  repeat split; try done; simpl; rewrite tunnelingHeadersOf_map.
  - by rewrite length_map.
  - intros i header Hi. by erewrite map_lookup_Some by exact Hi.
Qed.


(** C7.  A route whose action is a weighted cluster set or a cluster chosen
    by header, or a single cluster whose upstream has no tunneling hostname,
    is left as it is when it is encountered; the iteration changes none of
    the locals and none of the input clusters, and the scan goes on: the
    call returns what it returns for the same routes without this one, and
    updates the other routes and the input clusters in the same way. *)
Theorem other_routes_left_alone
    (inClusters : list Cluster) (inEndpoints : list ClusterLoadAssignment)
    (inRouteConfigurations : list RouteConfiguration)
    (inListeners : list Listener)
    (pre post : list Route) (rt : Route) (st : ScanState) :
  encountered inClusters inRouteConfigurations pre rt post st →
  notTunneling rt →
  let out := GeneratedResources inClusters inEndpoints
               inRouteConfigurations inListeners in
  processRoute st rt = (rt, st, Next) ∧
  allRoutes (mutRouteConfigurations out) !! length pre = Some rt ∧
  ∀ without : list RouteConfiguration,
    allRoutes without = pre ++ post →
    let out' := GeneratedResources inClusters inEndpoints without inListeners in
    outClusters out = outClusters out' ∧
    outListeners out = outListeners out' ∧
    outErr out = outErr out' ∧
    mutClusters out = mutClusters out' ∧
    allRoutes (mutRouteConfigurations out) =
      take (length pre) (allRoutes (mutRouteConfigurations out')) ++
      rt :: drop (length pre) (allRoutes (mutRouteConfigurations out')).
Proof.
  intros Henc Hnot out.
  pose proof (processRoute_notTunneling st rt Hnot) as Hrt.
  split; [done|]. split.
  { unfold out. rewrite (encountered_route _ _ _ _ _ _ _ _ Henc).
    pose proof (processRoute_route st rt) as Hrw. rewrite Hrt in Hrw.
    by rewrite <- Hrw. }
  intros without Hwithout out'.
  destruct (encountered_without _ _ _ _ _ _ _ Henc Hwithout)
    as (pre' & Hlen & Hscan & Hscan').
  unfold scanRoutes at 2 in Hscan. simpl in Hscan. rewrite Hrt in Hscan.
  fold (scanRoutes st post) in Hscan.
  destruct (scanRoutes st post) as [[post' st'] fl].
  destruct (GeneratedResources_scanRoutes inClusters inEndpoints _ inListeners
              _ _ _ Hscan) as (Hroutes & Hmut & _ & _ & Hout).
  destruct (GeneratedResources_scanRoutes inClusters inEndpoints _ inListeners
              _ _ _ Hscan') as (Hroutes' & Hmut' & _ & _ & Hout').
  fold out in Hroutes, Hmut, Hout. fold out' in Hroutes', Hmut', Hout'.
  rewrite Hroutes, Hroutes', Hmut, Hmut', <- Hlen.
  rewrite take_app_length, drop_app_length.
  destruct fl; destruct Hout as (-> & -> & ->);
    destruct Hout' as (-> & -> & ->); done.
Qed.


(** C9.  Let a tunneling-eligible route be encountered before any abort
    whose cluster name is the name of no input cluster.  The route is
    rewritten all the same: when the call is over its action targets
    "solo_io_generated_self_cluster_" + the name.  If the TCP proxy
    configuration of the name serialises, the iteration does not return: it
    leaves the input clusters as they are, and after it the locals hold,
    once each, a cluster of the self-cluster name that has no transport
    socket and no transport socket matches and whose one endpoint is the
    pipe "@/" + the name, and the listener of the self-listener name that is
    bound to this pipe and whose one filter carries the serialised
    configuration.  And when the call returns no error, the configuration
    has serialised and the call returns both, once each. *)
Theorem absent_cluster_still_tunnelled
    (inClusters : list Cluster) (inEndpoints : list ClusterLoadAssignment)
    (inRouteConfigurations : list RouteConfiguration)
    (inListeners : list Listener)
    (pre post : list Route) (rt : Route) (st : ScanState)
    (cluster : string) (us : Upstream UpstreamSslConfig) :
  encountered inClusters inRouteConfigurations pre rt post st →
  tunnelingEligible rt cluster us →
  cluster ∉ map Cluster_Name inClusters →
  let out := GeneratedResources inClusters inEndpoints
               inRouteConfigurations inListeners in
  let rt' :=
    Route_setClusterSpecifier rt
      (RouteAction_Cluster ("solo_io_generated_self_cluster_" +:+ cluster)) in
  let cfg :=
    {| StatPrefix := "soloioTcpStats" +:+ cluster;
       TunnelingConfig := Some
         {| Hostname := GetHttpProxyHostname_GetValue us;
            HeadersToAdd := tunnelingHeadersOf us |};
       TcpProxy_Cluster := Some cluster |} in
  let selfPair (clusters : list Cluster) (listeners : list Listener)
               (typedConfig : Any) : Prop :=
    (∃ self,
       filter (λ c, Cluster_Name c = selfClusterOf cluster) clusters = [self] ∧
       Cluster_Name self = "solo_io_generated_self_cluster_" +:+ cluster ∧
       Cluster_TransportSocket self = None ∧
       TransportSocketMatches self = [] ∧
       LoadAssignment self = Some
         {| ClusterName := "solo_io_generated_self_cluster_" +:+ cluster;
            Endpoints :=
              [ {| LbEndpoints :=
                     [ {| LbEndpoint_Endpoint := Some
                            {| Endpoint_Address := Some
                                 (Address_Pipe
                                    {| Pipe_Path := "@/" +:+ cluster |}) |}
                       |} ] |} ] |}) ∧
    filter (λ l, Listener_Name l = selfListenerOf cluster) listeners
      = [ {| Listener_Name := "solo_io_generated_self_listener_" +:+ cluster;
             Listener_Address := Some
               (Address_Pipe {| Pipe_Path := "@/" +:+ cluster |});
             FilterChains :=
               [ {| Filters :=
                      [ {| Filter_Name := "tcp";
                           Filter_TypedConfig := Some typedConfig |} ] |} ] |} ] in
  allRoutes (mutRouteConfigurations out) !! length pre = Some rt' ∧
  RouteAction_GetCluster (Route_GetRoute rt')
    = "solo_io_generated_self_cluster_" +:+ cluster ∧
  (∀ typedConfig,
     MessageToAny (Message_TcpProxy cfg) = inr typedConfig →
     ∃ st1, processRoute st rt = (rt', st1, Next) ∧
       liveClusters st1 = liveClusters st ∧
       selfPair (generatedClusters st1) (generatedListeners st1) typedConfig) ∧
  (outErr out = None →
     ∃ typedConfig,
       MessageToAny (Message_TcpProxy cfg) = inr typedConfig ∧
       selfPair (outClusters out) (outListeners out) typedConfig).
Proof.
  intros Henc Hel Habs out rt' cfg selfPair.
  assert (Hnone : clusterNamed cluster inClusters = None)
    by (by apply clusterNamed_None).
  assert (Hus : upstreamOf cluster = Some us) by (by destruct Hel as (_ & _ & ? & _)).
  assert (Hpair : ∀ order st0, Generated inClusters order st0 → cluster ∈ order →
            ∃ typedConfig,
              MessageToAny (Message_TcpProxy cfg) = inr typedConfig ∧
              selfPair (generatedClusters st0) (generatedListeners st0)
                typedConfig).
  { intros order st0 Hgen Hin.
    destruct (Generated_filter inClusters order st0 cluster Hgen Hin)
      as [Hcl (l & Hls & Hl)].
    destruct (listenerFor_fields _ _ Hl) as (us' & typedConfig & Hus' & Hany & ->).
    assert (us' = us) as -> by congruence.
    exists typedConfig. split; [exact Hany|]. split; [|exact Hls].
    exists (selfClusterFor inClusters cluster).
    split; [done|]. split; [done|].
    split; [|done].
    simpl. unfold originalTransportSocketOf. by rewrite Hnone. }
  destruct (rewriteRoute_eligible _ _ _ Hel) as [Hrw Hget].
  split; [|split; [|split]].
  - unfold out. rewrite (encountered_route _ _ _ _ _ _ _ _ Henc). by rewrite Hrw.
  - unfold rt'. change ("solo_io_generated_self_cluster_" +:+ cluster)
      with (selfClusterOf cluster). by rewrite <- Hrw.
  - intros typedConfig Hany.
    destruct (encountered_scan _ _ _ _ _ _ Henc) as (order & _ & Hinv & _).
    assert (Hstep : ∃ st1, processRoute st rt = (rt', st1, Next) ∧
                           liveClusters st1 = liveClusters st).
    { rewrite (processRoute_eligible _ _ _ _ Hel). simpl.
      case_decide as Hp; [by exists st|].
      destruct Hinv as (Hrel & Hgen & Hunt).
      destruct (relocateTransportSocket us cluster (liveClusters st))
        as [[cls' orig] flr] eqn:Hrl.
      destruct (relocateTransportSocket_spec _ _ _ _ _ _ Hrl)
        as (_ & _ & _ & Hcl).
      assert (Hlive : clusterNamed cluster (liveClusters st) = None).
      { apply clusterNamed_None. by rewrite (rel_names _ _ _ Hrel). }
      rewrite Hlive in Hcl. destruct Hcl as [-> ->].
      rewrite generateForwardingTcpListener_tcpProxyFor.
      change (tcpProxyFor cluster us) with cfg. rewrite Hany.
      by eexists. }
    destruct Hstep as (st1 & Hrt & Hlive). exists st1.
    split; [done|]. split; [done|].
    pose proof (processRoute_inv _ _ _ _ _ _ _ Hinv Hrt) as (_ & Hgen1 & _).
    destruct (Hpair (visit order rt) st1 Hgen1) as (typedConfig' & Hany' & Hp).
    { apply elem_of_visit. right. apply eligibleCluster_Some. by exists us. }
    assert (typedConfig' = typedConfig) as -> by congruence. exact Hp.
  - intros Herr.
    destruct (eligible_route_processed inClusters inEndpoints _ inListeners
                _ _ _ _ _ _ Henc Hel (or_introl Hnone) Herr)
      as (order & st' & _ & Hgen & Hin & _ & Hcl & Hls).
    fold out in Hcl, Hls. rewrite Hcl, Hls.
    by apply (Hpair order st').
Qed.




(** ** Further properties: the input clusters *)

Lemma Forall2_diag {A : Type} (R : A → A → Prop) (l : list A) :
  (∀ x, R x x) → Forall2 R l l.
Proof. intros HR. induction l; by constructor. Qed.

Lemma Forall2_compose {A : Type} (R : A → A → Prop) (l1 l2 l3 : list A) :
  (∀ x y z, R x y → R y z → R x z) →
  Forall2 R l1 l2 → Forall2 R l2 l3 → Forall2 R l1 l3.
Proof.
  intros HR H12. revert l3.
  induction H12 as [|x y l1 l2 Hxy H12 IH]; intros l3 H23.
  - by inversion H23.
  - inversion H23 as [|y' z l2' l3' Hyz H23']; subst.
    constructor; [by eapply HR | by apply IH].
Qed.

Lemma clusterUpdated_name (c c' : Cluster) :
  clusterUpdated c c' → Cluster_Name c' = Cluster_Name c.
Proof. by intros [-> | [ts ->]]. Qed.

Lemma clusterUpdated_trans (c1 c2 c3 : Cluster) :
  clusterUpdated c1 c2 → clusterUpdated c2 c3 → clusterUpdated c1 c3.
Proof.
  intros [-> | [ts ->]] [-> | [ts' ->]];
    [by left | right; by exists ts' | right; by exists ts | right; by exists ts'].
Qed.

(** The loop over the input clusters updates at most the first cluster of
    the name, and only its transport socket and transport socket matches. *)
Lemma relocateTransportSocket_frame (us : Upstream UpstreamSslConfig)
    (cluster : string) (clusters clusters' : list Cluster)
    (orig : option TransportSocket) (fl : Flow) :
  relocateTransportSocket us cluster clusters = (clusters', orig, fl) →
  Forall2 clusterUpdated clusters clusters' ∧
  ∀ i c, clusters !! i = Some c →
    clusters' !! i = Some c ∨
    (Cluster_Name c = cluster ∧ firstOfItsName clusters i c).
Proof.
  revert clusters' orig fl.
  induction clusters as [|c0 rest IH]; intros clusters' orig fl; simpl.
  - intros [= <- <- <-]. split; [constructor | done].
  - case_decide as Hn.
    + intros Hrl.
      assert (∃ ts, clusters' = Cluster_setTransportSocket c0 ts :: rest)
        as [ts ->].
      { destruct (HttpConnectSslConfig us) as [ssl|];
          [|injection Hrl as <- <- <-; by eexists].
        destruct (ResolveUpstreamSslConfig _ ssl) as [e|cfg];
          [injection Hrl as <- <- <-; by eexists|].
        destruct (MessageToAny _) as [e|any];
          injection Hrl as <- <- <-; by eexists. }
      split.
      * constructor; [right; by exists ts|].
        apply Forall2_diag. by left.
      * intros [|i] c Hc; simpl in *; [|by left].
        injection Hc as <-. right. split; [done|].
        split; [done|]. intros j c' Hj. lia.
    + destruct (relocateTransportSocket us cluster rest)
        as [[rest' orig'] fl'] eqn:E.
      intros [= <- <- <-].
      destruct (IH _ _ _ eq_refl) as [HF Hidx]. split.
      * constructor; [by left | done].
      * intros [|i] c Hc; simpl in *; [by left|].
        destruct (Hidx i c Hc) as [Hsame | [Hname [_ Hfirst]]]; [by left|].
        right. split; [done|]. split; [done|].
        intros [|j] c' Hj Hc'; simpl in *.
        -- injection Hc' as <-. congruence.
        -- apply (Hfirst j c'); [lia | done].
Qed.

Lemma clustersUpdated_refl (routes : list Route) (clusters : list Cluster) :
  clustersUpdated routes clusters clusters.
Proof. split; [apply Forall2_diag; by left | by left]. Qed.

Lemma clustersUpdated_trans (routes1 routes2 : list Route)
    (cls1 cls2 cls3 : list Cluster) :
  clustersUpdated routes1 cls1 cls2 →
  clustersUpdated routes2 cls2 cls3 →
  clustersUpdated (routes1 ++ routes2) cls1 cls3.
Proof.
  intros [HF12 H12] [HF23 H23]. split.
  - eapply Forall2_compose; [apply clusterUpdated_trans | done..].
  - intros i c Hc.
    destruct (H12 i c Hc) as [Hsame | [Hfirst (rt & Hrt & Hel)]].
    + destruct (H23 i c Hsame) as [Hsame' | [[_ Hfirst] (rt & Hrt & Hel)]];
        [by left|].
      right. split.
      * split; [done|]. intros j c' Hj Hc'.
        destruct (Forall2_lookup_l _ _ _ _ _ HF12 Hc') as (c'' & Hc'' & Hup).
        rewrite <- (clusterUpdated_name _ _ Hup). by apply (Hfirst j).
      * exists rt. split; [|done]. apply elem_of_app. by right.
    + right. split; [done|]. exists rt. split; [|done].
      apply elem_of_app. by left.
Qed.

Lemma processRoute_clusters (st st' : ScanState) (rt rt' : Route) (fl : Flow) :
  processRoute st rt = (rt', st', fl) →
  clustersUpdated [rt] (liveClusters st) (liveClusters st').
Proof.
  unfold processRoute.
  set (cluster := RouteAction_GetCluster (Route_GetRoute rt)).
  case_decide as Hc; [intros [= <- <- <-]; apply clustersUpdated_refl|].
  destruct (ClusterToUpstreamRef cluster) as [e|ref] eqn:Href;
    [intros [= <- <- <-]; apply clustersUpdated_refl|].
  destruct (Find _ _ _) as [e|us] eqn:Hfind;
    [intros [= <- <- <-]; apply clustersUpdated_refl|].
  case_decide as Hh; [intros [= <- <- <-]; apply clustersUpdated_refl|].
  assert (Hel : eligibleCluster rt = Some cluster).
  { unfold eligibleCluster, upstreamOf. fold cluster.
    rewrite decide_False by done. rewrite Href, Hfind.
    by rewrite decide_False. }
  case_decide as Hp; [intros [= <- <- <-]; apply clustersUpdated_refl|].
  destruct (relocateTransportSocket us cluster (liveClusters st))
    as [[cls' orig] flr] eqn:Hrl.
  destruct (relocateTransportSocket_frame _ _ _ _ _ _ Hrl) as [HF Hidx].
  assert (Hupd : clustersUpdated [rt] (liveClusters st) cls').
  { split; [done|]. intros i c Hi.
    destruct (Hidx i c Hi) as [Hsame | [Hname Hfirst]]; [by left|].
    right. split; [done|]. exists rt. split; [by left|]. by rewrite Hname. }
  destruct flr as [| |e]; [|by intros [= <- <- <-]..].
  destruct (generateForwardingTcpListener _ _ _ _); by intros [= <- <- <-].
Qed.

Lemma scanRoutes_clusters (routes routes' : list Route) (st st' : ScanState)
    (fl : Flow) :
  scanRoutes st routes = (routes', st', fl) →
  clustersUpdated routes (liveClusters st) (liveClusters st').
Proof.
  unfold scanRoutes. revert routes' st.
  induction routes as [|rt routes IH]; intros routes' st; simpl.
  - intros [= <- <- <-]. apply clustersUpdated_refl.
  - destruct (processRoute st rt) as [[rt1 st1] fl1] eqn:Hrt.
    pose proof (processRoute_clusters _ _ _ _ _ Hrt) as H1.
    assert (Hstop : clustersUpdated (rt :: routes) (liveClusters st)
                      (liveClusters st1)).
    { change (rt :: routes) with ([rt] ++ routes).
      eapply clustersUpdated_trans; [done | apply clustersUpdated_refl]. }
    destruct fl1 as [| |e]; [|by intros [= <- <- <-]..].
    destruct (scan processRoute st1 routes) as [[rest' st2] fl2] eqn:Hrest.
    intros [= <- <- <-].
    change (rt :: routes) with ([rt] ++ routes).
    eapply clustersUpdated_trans; [done | by eapply IH].
Qed.


Lemma GeneratedResources_clusters
    (inClusters : list Cluster) (inEndpoints : list ClusterLoadAssignment)
    (inRouteConfigurations : list RouteConfiguration)
    (inListeners : list Listener) :
  clustersUpdated (allRoutes inRouteConfigurations) inClusters
    (mutClusters (GeneratedResources inClusters inEndpoints
                    inRouteConfigurations inListeners)).
Proof.
  destruct (scanRoutes (initialState inClusters)
              (allRoutes inRouteConfigurations)) as [[routes' st] fl] eqn:Hscan.
  destruct (GeneratedResources_scanRoutes inClusters inEndpoints _ inListeners
              _ _ _ Hscan) as (_ & -> & _).
  apply (scanRoutes_clusters _ _ _ _ _ Hscan).
Qed.

(** X1.  Whatever the call returns, it leaves as many input clusters as it
    found, in the same order, each with its name, discovery type, connect
    timeout and load assignment; a cluster that is not the same as before
    has no transport socket matches. *)
Theorem input_clusters_keep_their_fields
    (inClusters : list Cluster) (inEndpoints : list ClusterLoadAssignment)
    (inRouteConfigurations : list RouteConfiguration)
    (inListeners : list Listener) :
  let out := GeneratedResources inClusters inEndpoints
               inRouteConfigurations inListeners in
  Forall2 (λ c c',
             Cluster_Name c' = Cluster_Name c ∧
             Cluster_Type c' = Cluster_Type c ∧
             ConnectTimeout c' = ConnectTimeout c ∧
             LoadAssignment c' = LoadAssignment c ∧
             (c' = c ∨ TransportSocketMatches c' = []))
          inClusters (mutClusters out).
Proof.
  intros out.
  destruct (GeneratedResources_clusters inClusters inEndpoints
              inRouteConfigurations inListeners) as [HF _].
  eapply Forall2_impl; [apply HF|].
  intros c c' [-> | [ts ->]]; repeat split; auto.
Qed.

(** X2.  An input cluster that the call does not leave as it was is the
    first cluster of its name in the list, and its name is the cluster name
    of a tunneling-eligible route of the input: later clusters of the same
    name, and clusters that no eligible route names, are never updated. *)
Theorem only_first_cluster_of_an_eligible_name_changes
    (inClusters : list Cluster) (inEndpoints : list ClusterLoadAssignment)
    (inRouteConfigurations : list RouteConfiguration)
    (inListeners : list Listener) (i : nat) (c : Cluster) :
  inClusters !! i = Some c →
  let out := GeneratedResources inClusters inEndpoints
               inRouteConfigurations inListeners in
  mutClusters out !! i = Some c ∨
  (firstOfItsName inClusters i c ∧
   ∃ rt us, rt ∈ allRoutes inRouteConfigurations ∧
            tunnelingEligible rt (Cluster_Name c) us).
Proof.
  intros Hi out.
  destruct (GeneratedResources_clusters inClusters inEndpoints
              inRouteConfigurations inListeners) as [_ Hidx].
  destruct (Hidx i c Hi) as [Hsame | [Hfirst (rt & Hrt & Hel)]]; [by left|].
  right. split; [done|].
  apply eligibleCluster_Some in Hel as [us Hel]. by exists rt, us.
Qed.


(** ** Further properties: the route configurations *)

Lemma scan_Forall2 {A : Type} (R : A → A → Prop)
    (body : ScanState → A → A * ScanState * Flow)
    (st st' : ScanState) (xs xs' : list A) (fl : Flow) :
  (∀ x, R x x) →
  (∀ st x x' st' fl, body st x = (x', st', fl) → R x x') →
  scan body st xs = (xs', st', fl) →
  Forall2 R xs xs'.
Proof.
  intros Hrefl Hbody. revert st xs'.
  induction xs as [|x xs IH]; intros st xs'; simpl.
  - intros [= <- <- <-]. constructor.
  - destruct (body st x) as [[x1 st1] fl1] eqn:Hx.
    pose proof (Hbody _ _ _ _ _ Hx) as HR.
    destruct fl1 as [| |e];
      [|intros [= <- <- <-]; constructor; [done | by apply Forall2_diag]..].
    destruct (scan body st1 xs) as [[xs1 st2] fl2] eqn:Hxs.
    intros [= <- <- <-]. constructor; [done | by eapply IH].
Qed.

Lemma processRoute_updated (st st' : ScanState) (rt rt' : Route) (fl : Flow) :
  processRoute st rt = (rt', st', fl) → routeUpdated rt rt'.
Proof.
  intros Hrt. pose proof (processRoute_route st rt) as Hrw.
  rewrite Hrt in Hrw. simpl in Hrw. subst rt'.
  unfold rewriteRoute. destruct (eligibleCluster rt) as [c|] eqn:Hel; [|by left].
  apply eligibleCluster_Some in Hel as [us Hel]. right. by exists c, us.
Qed.

Lemma processVirtualHost_updated (st st' : ScanState) (vh vh' : VirtualHost)
    (fl : Flow) :
  processVirtualHost st vh = (vh', st', fl) → virtualHostUpdated vh vh'.
Proof.
  unfold processVirtualHost.
  destruct (scan processRoute st (Routes vh)) as [[routes' st1] fl1] eqn:Hscan.
  intros [= <- <- <-]. repeat split; simpl.
  eapply scan_Forall2; [| |apply Hscan].
  - by left.
  - intros s x x' s' f. apply processRoute_updated.
Qed.

Lemma virtualHostUpdated_refl (vh : VirtualHost) : virtualHostUpdated vh vh.
Proof. repeat split. apply Forall2_diag. by left. Qed.

Lemma processRouteConfiguration_updated (st st' : ScanState)
    (rc rc' : RouteConfiguration) (fl : Flow) :
  processRouteConfiguration st rc = (rc', st', fl) →
  routeConfigurationUpdated rc rc'.
Proof.
  unfold processRouteConfiguration.
  destruct (scan processVirtualHost st (VirtualHosts rc))
    as [[vhs' st1] fl1] eqn:Hscan.
  intros [= <- <- <-]. split; simpl; [done|].
  eapply scan_Forall2; [| |apply Hscan].
  - apply virtualHostUpdated_refl.
  - intros s x x' s' f. apply processVirtualHost_updated.
Qed.

(** X3.  Whatever the call returns, it leaves the route configurations,
    their virtual hosts and the routes of each virtual host in number and
    order, with the names of the route configurations and the names and
    domains of the virtual hosts; every route is as it was or is a
    tunneling-eligible route with the self-cluster of its cluster as cluster
    specifier, the rest of the route and of its action unchanged. *)
Theorem route_configurations_keep_their_shape
    (inClusters : list Cluster) (inEndpoints : list ClusterLoadAssignment)
    (inRouteConfigurations : list RouteConfiguration)
    (inListeners : list Listener) :
  let out := GeneratedResources inClusters inEndpoints
               inRouteConfigurations inListeners in
  Forall2 routeConfigurationUpdated inRouteConfigurations
    (mutRouteConfigurations out).
Proof.
  intros out. unfold out, GeneratedResources, scanRouteConfigurations.
  destruct (scan processRouteConfiguration (initialState inClusters)
              inRouteConfigurations) as [[rcs' st] fl] eqn:Hscan.
  assert (HF : Forall2 routeConfigurationUpdated inRouteConfigurations rcs').
  { eapply scan_Forall2; [| |apply Hscan].
    - intros rc. split; [done|]. apply Forall2_diag, virtualHostUpdated_refl.
    - intros s x x' s' f. apply processRouteConfiguration_updated. }
  by destruct fl.
Qed.

Lemma scan_unchanged {A : Type} (body : ScanState → A → A * ScanState * Flow)
    (st : ScanState) (xs : list A) :
  Forall (λ x, ∃ fl, (fl = Next ∨ fl = ReturnPartial) ∧ body st x = (x, st, fl))
    xs →
  ∃ fl, (fl = Next ∨ fl = ReturnPartial) ∧ scan body st xs = (xs, st, fl).
Proof.
  induction 1 as [|x xs (fl & Hfl & Hx) _ (fl' & Hfl' & IH)]; simpl.
  - exists Next. auto.
  - rewrite Hx. destruct Hfl as [-> | ->].
    + rewrite IH. by exists fl'.
    + exists ReturnPartial. auto.
Qed.

Lemma Forall_flat_map_inv {A B : Type} (P : B → Prop) (f : A → list B)
    (l : list A) :
  Forall P (flat_map f l) → Forall (λ x, Forall P (f x)) l.
Proof.
  induction l as [|x l IH]; simpl; [constructor|].
  intros H. apply Forall_app in H as [Hx Hl]. constructor; auto.
Qed.

(** X4.  When no route of the input is tunneling-eligible (in particular
    when there is no route at all), the call returns no error, no cluster
    and no listener, and leaves the input clusters and the route
    configurations exactly as they were, also when it stops early at a
    cluster name that does not parse or has no upstream. *)
Theorem nothing_to_tunnel_changes_nothing
    (inClusters : list Cluster) (inEndpoints : list ClusterLoadAssignment)
    (inRouteConfigurations : list RouteConfiguration)
    (inListeners : list Listener) :
  Forall (λ rt, eligibleCluster rt = None) (allRoutes inRouteConfigurations) →
  let out := GeneratedResources inClusters inEndpoints
               inRouteConfigurations inListeners in
  outErr out = None ∧ outClusters out = [] ∧ outListeners out = [] ∧
  mutClusters out = inClusters ∧
  mutRouteConfigurations out = inRouteConfigurations.
Proof.
  intros Hall out.
  assert (Hscan : ∃ fl, (fl = Next ∨ fl = ReturnPartial) ∧
            scan processRouteConfiguration (initialState inClusters)
              inRouteConfigurations
            = (inRouteConfigurations, initialState inClusters, fl)).
  { apply scan_unchanged.
    apply Forall_flat_map_inv in Hall.
    eapply Forall_impl; [apply Hall|]. intros rc Hrc; simpl in Hrc.
    unfold processRouteConfiguration.
    destruct (scan_unchanged processVirtualHost (initialState inClusters)
                (VirtualHosts rc)) as (fl & Hfl & ->).
    { apply Forall_flat_map_inv in Hrc.
      eapply Forall_impl; [apply Hrc|]. intros vh Hvh; simpl in Hvh.
      unfold processVirtualHost.
      destruct (scan_unchanged processRoute (initialState inClusters)
                  (Routes vh)) as (fl & Hfl & ->).
      { eapply Forall_impl; [apply Hvh|]. intros rt Hrt; simpl in Hrt.
        destruct (processRoute_ineligible (initialState inClusters)
                    (initialState inClusters) rt Hrt) as (fl & Hfl & Hp & _).
        by exists fl. }
      exists fl. split; [done|]. by destruct vh. }
    exists fl. split; [done|]. by destruct rc. }
  destruct Hscan as (fl & Hfl & Hscan).
  unfold out, GeneratedResources, scanRouteConfigurations. rewrite Hscan.
  by destruct Hfl as [-> | ->].
Qed.

(** X5.  The call only depends on the routes in the order the loops reach
    them, not on how they are grouped into virtual hosts and route
    configurations: two inputs with the same routes in the same order give
    the same clusters, listeners and error, the same updates of the input
    clusters, and the same routes afterwards. *)
Theorem grouping_of_routes_is_irrelevant
    (inClusters : list Cluster) (inEndpoints : list ClusterLoadAssignment)
    (inRouteConfigurations inRouteConfigurations' : list RouteConfiguration)
    (inListeners : list Listener) :
  allRoutes inRouteConfigurations = allRoutes inRouteConfigurations' →
  let out := GeneratedResources inClusters inEndpoints
               inRouteConfigurations inListeners in
  let out' := GeneratedResources inClusters inEndpoints
                inRouteConfigurations' inListeners in
  outClusters out = outClusters out' ∧
  outListeners out = outListeners out' ∧
  outErr out = outErr out' ∧
  mutClusters out = mutClusters out' ∧
  allRoutes (mutRouteConfigurations out)
    = allRoutes (mutRouteConfigurations out').
Proof.
  intros Hall out out'.
  destruct (scanRoutes (initialState inClusters)
              (allRoutes inRouteConfigurations)) as [[routes' st] fl] eqn:Hscan.
  pose proof Hscan as Hscan'. rewrite Hall in Hscan'.
  destruct (GeneratedResources_scanRoutes inClusters inEndpoints _ inListeners
              _ _ _ Hscan) as (Hr & Hm & _ & _ & Hout).
  destruct (GeneratedResources_scanRoutes inClusters inEndpoints _ inListeners
              _ _ _ Hscan') as (Hr' & Hm' & _ & _ & Hout').
  fold out in Hr, Hm, Hout. fold out' in Hr', Hm', Hout'.
  rewrite Hr, Hr', Hm, Hm'.
  destruct fl; destruct Hout as (-> & -> & ->);
    destruct Hout' as (-> & -> & ->); done.
Qed.


(** ** Further properties: what is generated *)





(** ** Further properties: failures *)


Lemma relocateTransportSocket_error (us : Upstream UpstreamSslConfig)
    (cluster : string) (clusters clusters' : list Cluster)
    (orig : option TransportSocket) (err : error) :
  relocateTransportSocket us cluster clusters
    = (clusters', orig, ReturnError err) →
  ∃ sslConfig cfg,
    HttpConnectSslConfig us = Some sslConfig ∧
    ResolveUpstreamSslConfig (Secrets (Snapshot params)) sslConfig = inr cfg ∧
    MessageToAny (Message_UpstreamTlsContext cfg) = inl err.
Proof.
  revert clusters' orig.
  induction clusters as [|c rest IH]; intros clusters' orig; simpl; [done|].
  case_decide.
  - destruct (HttpConnectSslConfig us) as [ssl|]; [|done].
    destruct (ResolveUpstreamSslConfig _ ssl) as [e|cfg] eqn:Hres; [done|].
    destruct (MessageToAny _) as [e|any] eqn:Hany; [|done].
    intros [= _ _ <-]. by exists ssl, cfg.
  - destruct (relocateTransportSocket us cluster rest)
      as [[rest' orig'] fl'] eqn:E.
    intros [= _ _ ->]. by eapply IH.
Qed.

Lemma processRoute_error (st st' : ScanState) (rt rt' : Route) (err : error) :
  processRoute st rt = (rt', st', ReturnError err) →
  ∃ cluster us, tunnelingEligible rt cluster us ∧
    (MessageToAny (Message_TcpProxy (tcpProxyFor cluster us)) = inl err ∨
     ∃ sslConfig cfg,
       HttpConnectSslConfig us = Some sslConfig ∧
       ResolveUpstreamSslConfig (Secrets (Snapshot params)) sslConfig = inr cfg ∧
       MessageToAny (Message_UpstreamTlsContext cfg) = inl err).
Proof.
  unfold processRoute.
  set (cluster := RouteAction_GetCluster (Route_GetRoute rt)).
  case_decide as Hc; [done|].
  destruct (ClusterToUpstreamRef cluster) as [e|ref] eqn:Href; [done|].
  destruct (Find _ _ _) as [e|us] eqn:Hfind; [done|].
  case_decide as Hh; [done|].
  assert (Hel : tunnelingEligible rt cluster us).
  { repeat split; try done. unfold upstreamOf. by rewrite Href, Hfind. }
  case_decide as Hp; [done|].
  destruct (relocateTransportSocket us cluster (liveClusters st))
    as [[cls' orig] flr] eqn:Hrl.
  destruct flr as [| |e]; [|done|].
  - rewrite generateForwardingTcpListener_tcpProxyFor.
    destruct (MessageToAny _) as [e|any] eqn:Hany; [|done].
    intros [= _ _ <-]. exists cluster, us. split; [done | by left].
  - intros [= _ _ <-]. exists cluster, us. split; [done|]. right.
    by eapply relocateTransportSocket_error.
Qed.

Lemma scanRoutes_error (routes routes' : list Route) (st st' : ScanState)
    (err : error) :
  scanRoutes st routes = (routes', st', ReturnError err) →
  ∃ rt cluster us,
    rt ∈ routes ∧
    tunnelingEligible rt cluster us ∧
    (MessageToAny (Message_TcpProxy (tcpProxyFor cluster us)) = inl err ∨
     ∃ sslConfig cfg,
       HttpConnectSslConfig us = Some sslConfig ∧
       ResolveUpstreamSslConfig (Secrets (Snapshot params)) sslConfig = inr cfg ∧
       MessageToAny (Message_UpstreamTlsContext cfg) = inl err).
Proof.
  unfold scanRoutes. revert routes' st.
  induction routes as [|rt routes IH]; intros routes1 st0; simpl; [done|].
  destruct (processRoute st0 rt) as [[rt1 st1] fl1] eqn:Hrt.
  destruct fl1 as [| |e].
  - destruct (scan processRoute st1 routes) as [[rest' st2] fl2] eqn:Hrest.
    intros [= _ <- ->].
    destruct (IH _ _ Hrest) as (rt' & c & us & Hin & Hrest').
    exists rt', c, us. split; [by right | done].
  - done.
  - intros [= _ _ ->].
    destruct (processRoute_error _ _ _ _ _ Hrt) as (c & us & Hel & Hwhy).
    exists rt, c, us. split; [by left | done].
Qed.

(** X9.  The only errors the call returns are errors of the serialiser: an
    error comes from a tunneling-eligible route of the input, and is what
    [MessageToAny] returned for the TCP proxy configuration of its cluster
    and upstream, or for the resolved tunnel TLS context of its upstream.
    The errors of the reference resolver, of the upstream lookup and of the
    SSL resolution are never returned. *)
Theorem errors_are_serialisation_errors
    (inClusters : list Cluster) (inEndpoints : list ClusterLoadAssignment)
    (inRouteConfigurations : list RouteConfiguration)
    (inListeners : list Listener) (err : error) :
  outErr (GeneratedResources inClusters inEndpoints
            inRouteConfigurations inListeners) = Some err →
  ∃ rt cluster us,
    rt ∈ allRoutes inRouteConfigurations ∧
    tunnelingEligible rt cluster us ∧
    (MessageToAny (Message_TcpProxy (tcpProxyFor cluster us)) = inl err ∨
     ∃ sslConfig cfg,
       HttpConnectSslConfig us = Some sslConfig ∧
       ResolveUpstreamSslConfig (Secrets (Snapshot params)) sslConfig = inr cfg ∧
       MessageToAny (Message_UpstreamTlsContext cfg) = inl err).
Proof.
  intros Herr.
  destruct (scanRoutes (initialState inClusters)
              (allRoutes inRouteConfigurations)) as [[routes' st] fl] eqn:Hscan.
  destruct (GeneratedResources_scanRoutes inClusters inEndpoints _ inListeners
              _ _ _ Hscan) as (_ & _ & _ & _ & Hout).
  assert (fl = ReturnError err) as ->.
  { destruct fl; destruct Hout as (_ & _ & Herr'); congruence. }
  by apply (scanRoutes_error _ _ _ _ _ Hscan).
Qed.


(** ** Further properties: routes without a cluster name, and the results *)

(** X10.  A route without a single cluster name, be it that it has no
    action, that its action is a redirect or a direct response, that its
    route action has no cluster specifier, or that the cluster name is
    empty, is never shown to the reference resolver: when it is
    encountered it is left as it is, the iteration changes nothing, and the
    call returns what it returns for the same routes without this one. *)
Theorem routes_without_cluster_name_left_alone
    (inClusters : list Cluster) (inEndpoints : list ClusterLoadAssignment)
    (inRouteConfigurations : list RouteConfiguration)
    (inListeners : list Listener)
    (pre post : list Route) (rt : Route) (st : ScanState) :
  encountered inClusters inRouteConfigurations pre rt post st →
  RouteAction_GetCluster (Route_GetRoute rt) = "" →
  let out := GeneratedResources inClusters inEndpoints
               inRouteConfigurations inListeners in
  processRoute st rt = (rt, st, Next) ∧
  allRoutes (mutRouteConfigurations out) !! length pre = Some rt ∧
  ∀ without : list RouteConfiguration,
    allRoutes without = pre ++ post →
    let out' := GeneratedResources inClusters inEndpoints without inListeners in
    outClusters out = outClusters out' ∧
    outListeners out = outListeners out' ∧
    outErr out = outErr out' ∧
    mutClusters out = mutClusters out' ∧
    allRoutes (mutRouteConfigurations out) =
      take (length pre) (allRoutes (mutRouteConfigurations out')) ++
      rt :: drop (length pre) (allRoutes (mutRouteConfigurations out')).
Proof.
  intros Henc Hnone out.
  assert (Hrt : processRoute st rt = (rt, st, Next)).
  { unfold processRoute. rewrite Hnone. by rewrite decide_True. }
  split; [done|]. split.
  { unfold out. rewrite (encountered_route _ _ _ _ _ _ _ _ Henc).
    pose proof (processRoute_route st rt) as Hrw. rewrite Hrt in Hrw.
    by rewrite <- Hrw. }
  intros without Hwithout out'.
  destruct (encountered_without _ _ _ _ _ _ _ Henc Hwithout)
    as (pre' & Hlen & Hscan & Hscan').
  unfold scanRoutes at 2 in Hscan. simpl in Hscan. rewrite Hrt in Hscan.
  fold (scanRoutes st post) in Hscan.
  destruct (scanRoutes st post) as [[post' st'] fl].
  destruct (GeneratedResources_scanRoutes inClusters inEndpoints _ inListeners
              _ _ _ Hscan) as (Hroutes & Hmut & _ & _ & Hout).
  destruct (GeneratedResources_scanRoutes inClusters inEndpoints _ inListeners
              _ _ _ Hscan') as (Hroutes' & Hmut' & _ & _ & Hout').
  fold out in Hroutes, Hmut, Hout. fold out' in Hroutes', Hmut', Hout'.
  rewrite Hroutes, Hroutes', Hmut, Hmut', <- Hlen.
  rewrite take_app_length, drop_app_length.
  destruct fl; destruct Hout as (-> & -> & ->);
    destruct Hout' as (-> & -> & ->); done.
Qed.

Lemma clusterNamed_Some (name : string) (clusters : list Cluster) (c : Cluster) :
  clusterNamed name clusters = Some c → Cluster_Name c = name ∧ c ∈ clusters.
Proof.
  induction clusters as [|c' rest IH]; simpl; [done|].
  case_decide.
  - intros [= ->]. split; [done | by left].
  - intros H'. destruct (IH H') as [? ?]. split; [done | by right].
Qed.

(** X11.  Every cluster the call returns has static discovery, a connect
    timeout of five seconds, no transport socket matches, and a load
    assignment under its own name with one locality of one endpoint; its
    transport socket is none, or the transport socket that an input cluster
    had before the call, an input cluster whose self-cluster name is the
    name of the returned cluster. *)
Theorem returned_clusters_are_self_clusters
    (inClusters : list Cluster) (inEndpoints : list ClusterLoadAssignment)
    (inRouteConfigurations : list RouteConfiguration)
    (inListeners : list Listener) :
  let out := GeneratedResources inClusters inEndpoints
               inRouteConfigurations inListeners in
  Forall (λ g,
            Cluster_Type g = Some Cluster_STATIC ∧
            ConnectTimeout g = Some {| Seconds := 5; Nanos := 0 |} ∧
            TransportSocketMatches g = [] ∧
            (∃ la, LoadAssignment g = Some la ∧
                   ClusterName la = Cluster_Name g ∧
                   map (λ lle, length (LbEndpoints lle)) (Endpoints la) = [1]) ∧
            (Cluster_TransportSocket g = None ∨
             ∃ c, c ∈ inClusters ∧
                  Cluster_Name g = selfClusterOf (Cluster_Name c) ∧
                  Cluster_TransportSocket g = Cluster_TransportSocket c))
         (outClusters out).
Proof.
  intros out.
  destruct (GeneratedResources_order inClusters inEndpoints
              inRouteConfigurations inListeners) as (order & _ & Hcl & _).
  fold out in Hcl. rewrite Hcl. clear Hcl.
  induction order as [|c order IH]; simpl; constructor; [|done].
  repeat split.
  - by eexists.
  - unfold selfClusterFor, originalTransportSocketOf. simpl.
    destruct (clusterNamed c inClusters) as [cl|] eqn:Hc; [|by left].
    apply clusterNamed_Some in Hc as [<- Hin]. right. by exists cl.
Qed.

Lemma processRoute_listeners (st st' : ScanState) (rt rt' : Route) (fl : Flow) :
  processRoute st rt = (rt', st', fl) →
  (length (generatedListeners st') ≤
     length (generatedListeners st) + length (omap eligibleCluster [rt]))%nat.
Proof.
  simpl. destruct (eligibleCluster rt) as [c|] eqn:Hel.
  - apply eligibleCluster_Some in Hel as [us Hel].
    rewrite (processRoute_eligible _ _ _ _ Hel). simpl.
    case_decide; [intros [= <- <- <-]; lia|].
    destruct (relocateTransportSocket us c (liveClusters st))
      as [[cls' orig] flr].
    destruct flr; [|intros [= <- <- <-]; simpl; lia..].
    destruct (generateForwardingTcpListener _ _ _ _);
      intros [= <- <- <-]; simpl; [lia|].
    rewrite length_app. simpl. lia.
  - destruct (processRoute_ineligible st st rt Hel) as (fl' & _ & -> & _).
    intros [= <- <- <-]. simpl. lia.
Qed.

Lemma scanRoutes_listeners (routes routes' : list Route) (st st' : ScanState)
    (fl : Flow) :
  scanRoutes st routes = (routes', st', fl) →
  (length (generatedListeners st') ≤
     length (generatedListeners st) + length (omap eligibleCluster routes))%nat.
Proof.
  unfold scanRoutes. revert routes' st.
  induction routes as [|rt routes IH]; intros routes' st.
  - simpl. intros [= <- <- <-]. lia.
  - change (rt :: routes) with ([rt] ++ routes) at 2.
    rewrite omap_app, length_app. simpl scan.
    destruct (processRoute st rt) as [[rt1 st1] fl1] eqn:Hrt.
    pose proof (processRoute_listeners _ _ _ _ _ Hrt) as H1.
    destruct fl1 as [| |e]; [|intros [= <- <- <-]; lia..].
    destruct (scan processRoute st1 routes) as [[rest' st2] fl2] eqn:Hrest.
    intros [= <- <- <-]. pose proof (IH _ _ Hrest). lia.
Qed.

(** X12.  The call never returns endpoints or route configurations.  It
    returns as many listeners as clusters, and no more of them than the
    input has tunneling-eligible routes. *)
Theorem results_are_bounded_by_the_eligible_routes
    (inClusters : list Cluster) (inEndpoints : list ClusterLoadAssignment)
    (inRouteConfigurations : list RouteConfiguration)
    (inListeners : list Listener) :
  let out := GeneratedResources inClusters inEndpoints
               inRouteConfigurations inListeners in
  outEndpoints out = [] ∧ outRouteConfigurations out = [] ∧
  length (outClusters out) = length (outListeners out) ∧
  (length (outListeners out) ≤
     length (omap eligibleCluster (allRoutes inRouteConfigurations)))%nat.
Proof.
  intros out.
  destruct (scanRoutes (initialState inClusters)
              (allRoutes inRouteConfigurations)) as [[routes' st] fl] eqn:Hscan.
  destruct (GeneratedResources_scanRoutes inClusters inEndpoints _ inListeners
              _ _ _ Hscan) as (_ & _ & Hep & Hrc & Hout).
  fold out in Hep, Hrc, Hout.
  split; [done|]. split; [done|]. split.
  - destruct (GeneratedResources_order inClusters inEndpoints
                inRouteConfigurations inListeners) as (order & _ & Hcl & Hls).
    fold out in Hcl, Hls.
    rewrite Hcl, length_map. by apply Forall2_length in Hls.
  - pose proof (scanRoutes_listeners _ _ _ _ _ Hscan) as Hlen.
    simpl in Hlen.
    destruct fl; destruct Hout as (_ & -> & _); simpl; lia.
Qed.


Lemma processRoute_appends (st st' : ScanState) (rt rt' : Route) (fl : Flow) :
  processRoute st rt = (rt', st', fl) →
  ∃ moreClusters moreListeners,
    generatedClusters st' = generatedClusters st ++ moreClusters ∧
    generatedListeners st' = generatedListeners st ++ moreListeners.
Proof.
  assert (Hsame : ∃ moreClusters moreListeners,
            generatedClusters st = generatedClusters st ++ moreClusters ∧
            generatedListeners st = generatedListeners st ++ moreListeners).
  { exists [], []. by rewrite !app_nil_r. }
  unfold processRoute.
  case_decide; [by intros [= <- <- <-]|].
  destruct (ClusterToUpstreamRef _) as [e|ref]; [by intros [= <- <- <-]|].
  destruct (Find _ _ _) as [e|us]; [by intros [= <- <- <-]|].
  case_decide; [by intros [= <- <- <-]|].
  case_decide; [by intros [= <- <- <-]|].
  destruct (relocateTransportSocket _ _ _) as [[cls' orig] flr].
  destruct flr; [|by intros [= <- <- <-]..].
  destruct (generateForwardingTcpListener _ _ _ _) as [e|l];
    intros [= <- <- <-]; simpl.
  - eexists _, []. split; [reflexivity | by rewrite app_nil_r].
  - eexists _, _. split; reflexivity.
Qed.

Lemma scanRoutes_appends (routes routes' : list Route) (st st' : ScanState)
    (fl : Flow) :
  scanRoutes st routes = (routes', st', fl) →
  ∃ moreClusters moreListeners,
    generatedClusters st' = generatedClusters st ++ moreClusters ∧
    generatedListeners st' = generatedListeners st ++ moreListeners.
Proof.
  unfold scanRoutes. revert routes' st.
  induction routes as [|rt routes IH]; intros routes' st; simpl.
  - intros [= <- <- <-]. exists [], []. by rewrite !app_nil_r.
  - destruct (processRoute st rt) as [[rt1 st1] fl1] eqn:Hrt.
    destruct (processRoute_appends _ _ _ _ _ Hrt) as (mc & ml & Hc & Hl).
    destruct fl1 as [| |e]; [|intros [= <- <- <-]; by exists mc, ml..].
    destruct (scan processRoute st1 routes) as [[rest' st2] fl2] eqn:Hrest.
    intros [= <- <- <-].
    destruct (IH _ _ Hrest) as (mc' & ml' & Hc' & Hl').
    exists (mc ++ mc'), (ml ++ ml').
    by rewrite Hc', Hl', Hc, Hl, !app_assoc.
Qed.

(** X13.  Routes that follow do not change what is generated for the
    routes before them: when the scan of some route configurations runs
    through, and a call on these routes followed by more routes returns no
    error, it returns the clusters and the listeners of the shorter call,
    in the same order, followed by those it generates for the further
    routes. *)
Theorem later_routes_only_add_results
    (inClusters : list Cluster) (inEndpoints : list ClusterLoadAssignment)
    (part part' whole : list RouteConfiguration)
    (inListeners : list Listener) (rest : list Route) (st : ScanState) :
  allRoutes whole = allRoutes part ++ rest →
  scanRouteConfigurations inClusters part = (part', st, Next) →
  let out := GeneratedResources inClusters inEndpoints part inListeners in
  let out' := GeneratedResources inClusters inEndpoints whole inListeners in
  outErr out' = None →
  ∃ moreClusters moreListeners,
    outClusters out' = outClusters out ++ moreClusters ∧
    outListeners out' = outListeners out ++ moreListeners ∧
    length moreClusters = length moreListeners ∧
    take (length (allRoutes part)) (allRoutes (mutRouteConfigurations out'))
      = allRoutes (mutRouteConfigurations out).
Proof.
  intros Hall Hscan out out' Herr.
  pose proof (scan_processRouteConfiguration (initialState inClusters) part)
    as Hflat.
  unfold scanRouteConfigurations in Hscan. rewrite Hscan in Hflat.
  destruct (GeneratedResources_scanRoutes inClusters inEndpoints _ inListeners
              _ _ _ Hflat) as (Hr & _ & _ & _ & Hcl & Hls & _).
  fold out in Hr, Hcl, Hls.
  destruct (scanRoutes st rest) as [[rest' st'] fl] eqn:Hrest.
  assert (Hwhole : scanRoutes (initialState inClusters) (allRoutes whole)
                   = (allRoutes part' ++ rest', st', fl)).
  { rewrite Hall. unfold scanRoutes in *. by rewrite scan_app, Hflat, Hrest. }
  destruct (GeneratedResources_scanRoutes inClusters inEndpoints _ inListeners
              _ _ _ Hwhole) as (Hr' & _ & _ & _ & Hout').
  fold out' in Hr', Hout'.
  assert (Hres : outClusters out' = generatedClusters st' ∧
                 outListeners out' = generatedListeners st').
  { destruct fl; [by destruct Hout' as (-> & -> & _)..|].
    destruct Hout' as (_ & _ & Herr'). congruence. }
  destruct Hres as [Hcl' Hls'].
  destruct (scanRoutes_appends _ _ _ _ _ Hrest) as (mc & ml & Hmc & Hml).
  exists mc, ml. rewrite Hcl', Hls', Hcl, Hls, Hr, Hr'.
  split; [done|]. split; [done|]. split.
  - destruct (GeneratedResources_order inClusters inEndpoints part inListeners)
      as (order & _ & Ho & Hol).
    destruct (GeneratedResources_order inClusters inEndpoints whole inListeners)
      as (order' & _ & Ho' & Hol').
    fold out in Ho, Hol. fold out' in Ho', Hol'.
    apply Forall2_length in Hol, Hol'.
    assert (length (outClusters out) = length (outListeners out))
      by (by rewrite Ho, length_map).
    assert (length (outClusters out') = length (outListeners out'))
      by (by rewrite Ho', length_map).
    rewrite Hcl', Hls', Hmc, Hml, !length_app in *.
    rewrite Hcl, Hls in *. lia.
  - rewrite <- (scan_length _ _ _ _ _ _ Hflat). by rewrite take_app_length.
Qed.

End Tunneling.

(** ** The properties on the sample environment *)

Local Abbreviation SampleGeneratedResources :=
  (GeneratedResources Sample.ClusterToUpstreamRef Sample.Find
     Sample.ResolveUpstreamSslConfig Sample.MessageToAny Sample.params).

Local Abbreviation sampleListenerFor :=
  (listenerFor Sample.ClusterToUpstreamRef Sample.Find Sample.MessageToAny
     Sample.params).

Local Abbreviation sampleProcessRoute :=
  (processRoute Sample.ClusterToUpstreamRef Sample.Find
     Sample.ResolveUpstreamSslConfig Sample.MessageToAny Sample.params).

Local Abbreviation sampleUpstreamOf :=
  (upstreamOf Sample.ClusterToUpstreamRef Sample.Find Sample.params).

(** Both virtual hosts route to c1, and one pair is generated for it. *)
Lemma one_self_pair_per_cluster_witness :
  let out := SampleGeneratedResources Sample.inClusters []
               Sample.rtConfigs [] in
  outErr out = None ∧
  filter (λ c, Cluster_Name c = selfClusterOf "c1") (outClusters out)
    = [selfClusterFor Sample.inClusters "c1"] ∧
  ∃ l, filter (λ l, Listener_Name l = selfListenerOf "c1") (outListeners out)
         = [l] ∧ sampleListenerFor "c1" l.
Proof.
  eapply (one_self_pair_per_cluster Sample.ClusterToUpstreamRef Sample.Find
            Sample.ResolveUpstreamSslConfig Sample.MessageToAny Sample.params
            Sample.inClusters [] Sample.rtConfigs _ [] _
            Sample.r_c1' "c1" Sample.us_c1).
  - reflexivity.
  - vm_compute. do 3 right. left.
  - repeat split; discriminate.
Defined.


(** The tunnel SSL configuration of c3 names a secret that is not there:
    the call returns what was generated for c1, and leaves the route to c2
    alone. *)
Lemma soft_failure_returns_partial_result_witness :
  let out := SampleGeneratedResources Sample.inClusters []
               (Sample.rtConfigsOf [Sample.r_c1; Sample.r_c3; Sample.r_c2]) [] in
  outErr out = None ∧
  outClusters out = [selfClusterFor Sample.inClusters "c1"] ∧
  outListeners out =
    [ {| Listener_Name := "solo_io_generated_self_listener_c1";
         Listener_Address := Some (Address_Pipe {| Pipe_Path := "@/c1" |});
         FilterChains :=
           [ {| Filters :=
                  [ {| Filter_Name := "tcp";
                       Filter_TypedConfig := Some
                         {| Any_TypeUrl := "TcpProxy";
                            Any_Value :=
                              "soloioTcpStatsc1>internal.example.com" |}
                    |} ] |} ] |} ] ∧
  outEndpoints out = [] ∧ outRouteConfigurations out = [] ∧
  drop 2 (allRoutes (mutRouteConfigurations out)) = [Sample.r_c2].
Proof.
  refine (soft_failure_returns_partial_result
            Sample.ClusterToUpstreamRef Sample.Find
            Sample.ResolveUpstreamSslConfig Sample.MessageToAny Sample.params
            Sample.inClusters []
            (Sample.rtConfigsOf [Sample.r_c1; Sample.r_c3; Sample.r_c2]) []
            [Sample.r_c1] [Sample.r_c2] Sample.r_c3
            (scanRoutes Sample.ClusterToUpstreamRef Sample.Find
               Sample.ResolveUpstreamSslConfig Sample.MessageToAny
               Sample.params (initialState Sample.inClusters)
               [Sample.r_c1]).1.2 _ _).
  - split; [reflexivity | eexists; reflexivity].
  - eapply (sslResolutionFailure _ _ _ _ _ _ _ "c3" Sample.us_c3 "missing").
    + repeat split; discriminate.
    + by_computation.
    + by_computation.
    + reflexivity.
    + reflexivity.
Defined.

(** The tunnel hostname of c4 does not serialise: the call returns the
    error and nothing else, though a pair was generated for c1. *)
Lemma serialization_failure_returns_error_witness :
  let out := SampleGeneratedResources Sample.inClusters []
               (Sample.rtConfigsOf [Sample.r_c1; Sample.r_c4; Sample.r_c2]) [] in
  outErr out = Some (errorString "marshal tcp proxy") ∧
  outClusters out = [] ∧ outEndpoints out = [] ∧
  outRouteConfigurations out = [] ∧ outListeners out = [].
Proof.
  eapply (serialization_failure_returns_error
            Sample.ClusterToUpstreamRef Sample.Find
            Sample.ResolveUpstreamSslConfig Sample.MessageToAny Sample.params
            Sample.inClusters []
            (Sample.rtConfigsOf [Sample.r_c1; Sample.r_c4; Sample.r_c2]) []
            [Sample.r_c1] [Sample.r_c2] Sample.r_c4).
  - split; [reflexivity | eexists; reflexivity].
  - eapply (tcpProxySerializationFailure _ _ _ _ _ _ _ _ _ "c4" Sample.us_c4).
    + repeat split; discriminate.
    + by_computation.
    + right. eexists. reflexivity.
    + reflexivity.
Defined.

Local Abbreviation sampleEncountered :=
  (encountered Sample.ClusterToUpstreamRef Sample.Find
     Sample.ResolveUpstreamSslConfig Sample.MessageToAny Sample.params).

Local Abbreviation sampleEligible :=
  (tunnelingEligible Sample.ClusterToUpstreamRef Sample.Find Sample.params).

Local Abbreviation sampleStateAfter pre :=
  (scanRoutes Sample.ClusterToUpstreamRef Sample.Find
     Sample.ResolveUpstreamSslConfig Sample.MessageToAny Sample.params
     (initialState Sample.inClusters) pre).1.2.

(** The second route to c1 is rewritten, although c1 is processed by then;
    the iteration does nothing else. *)
Lemma eligible_route_rewritten_witness :
  let out := SampleGeneratedResources Sample.inClusters []
               Sample.rtConfigs [] in
  let st := sampleStateAfter [Sample.r_c1; Sample.r_weighted; Sample.r_plain] in
  let rt' :=
    Sample.routeTo "r1'" (RouteAction_Cluster "solo_io_generated_self_cluster_c1") in
  allRoutes (mutRouteConfigurations out) !! 3 = Some rt' ∧
  RouteAction_GetCluster (Route_GetRoute rt') = "solo_io_generated_self_cluster_c1" ∧
  "c1" ∈ processedClusters st ∧
  sampleProcessRoute st Sample.r_c1' = (rt', st, Next).
Proof.
  intros out st rt'.
  assert (Henc : sampleEncountered Sample.inClusters Sample.rtConfigs
                   [Sample.r_c1; Sample.r_weighted; Sample.r_plain]
                   Sample.r_c1' [Sample.r_header; Sample.r_c2; Sample.r_c6] st)
    by (split; [reflexivity | eexists; reflexivity]).
  assert (Hel : sampleEligible Sample.r_c1' "c1" Sample.us_c1)
    by (repeat split; discriminate).
  assert (Hin : "c1" ∈ processedClusters st) by by_computation.
  destruct (eligible_route_rewritten _ _ _ _ _ _ [] _ [] _ _ _ _ _ _ Henc Hel)
    as (H1 & H2 & H3).
  split; [exact H1|]. split; [exact H2|]. split; [exact Hin|]. exact (H3 Hin).
Defined.

(** The weighted route is left alone, and the call does what it does without
    it. *)
Lemma other_routes_left_alone_witness :
  let out := SampleGeneratedResources Sample.inClusters []
               Sample.rtConfigs [] in
  let out' := SampleGeneratedResources Sample.inClusters []
                (Sample.rtConfigsOf
                   [Sample.r_c1; Sample.r_plain; Sample.r_c1'; Sample.r_header;
                    Sample.r_c2; Sample.r_c6]) [] in
  let st := sampleStateAfter [Sample.r_c1] in
  sampleProcessRoute st Sample.r_weighted = (Sample.r_weighted, st, Next) ∧
  allRoutes (mutRouteConfigurations out) !! 1 = Some Sample.r_weighted ∧
  outClusters out = outClusters out' ∧
  outListeners out = outListeners out' ∧
  outErr out = outErr out' ∧
  mutClusters out = mutClusters out' ∧
  allRoutes (mutRouteConfigurations out) =
    take 1 (allRoutes (mutRouteConfigurations out')) ++
    Sample.r_weighted :: drop 1 (allRoutes (mutRouteConfigurations out')).
Proof.
  intros out out' st.
  assert (Henc : sampleEncountered Sample.inClusters Sample.rtConfigs
                   [Sample.r_c1] Sample.r_weighted
                   [Sample.r_plain; Sample.r_c1'; Sample.r_header; Sample.r_c2;
                    Sample.r_c6] st)
    by (split; [reflexivity | eexists; reflexivity]).
  assert (Hnot : notTunneling Sample.ClusterToUpstreamRef Sample.Find
                   Sample.params Sample.r_weighted)
    by (eapply weightedClusters; reflexivity).
  destruct (other_routes_left_alone _ _ _ _ _ _ [] _ [] _ _ _ _ Henc Hnot)
    as (H1 & H2 & H3).
  split; [exact H1|]. split; [exact H2|].
  exact (H3 (Sample.rtConfigsOf
               [Sample.r_c1; Sample.r_plain; Sample.r_c1'; Sample.r_header;
                Sample.r_c2; Sample.r_c6]) eq_refl).
Defined.


(** There is no input cluster c6: the route to it is rewritten, the
    iteration goes on, and the call returns a cluster of the self-cluster
    name of c6 without transport socket, and the self-listener of c6. *)
Lemma absent_cluster_still_tunnelled_witness :
  let out := SampleGeneratedResources Sample.inClusters []
               Sample.rtConfigs [] in
  let st := sampleStateAfter
              [Sample.r_c1; Sample.r_weighted; Sample.r_plain; Sample.r_c1';
               Sample.r_header; Sample.r_c2] in
  let rt' :=
    Sample.routeTo "r6" (RouteAction_Cluster "solo_io_generated_self_cluster_c6") in
  let selfPair (clusters : list Cluster) (listeners : list Listener) : Prop :=
    (∃ self,
       filter (λ c, Cluster_Name c = selfClusterOf "c6") clusters = [self] ∧
       Cluster_Name self = "solo_io_generated_self_cluster_c6" ∧
       Cluster_TransportSocket self = None ∧
       TransportSocketMatches self = [] ∧
       LoadAssignment self = Some
         {| ClusterName := "solo_io_generated_self_cluster_c6";
            Endpoints :=
              [ {| LbEndpoints :=
                     [ {| LbEndpoint_Endpoint := Some
                            {| Endpoint_Address := Some
                                 (Address_Pipe {| Pipe_Path := "@/c6" |}) |}
                       |} ] |} ] |}) ∧
    filter (λ l, Listener_Name l = selfListenerOf "c6") listeners
      = [ {| Listener_Name := "solo_io_generated_self_listener_c6";
             Listener_Address := Some (Address_Pipe {| Pipe_Path := "@/c6" |});
             FilterChains :=
               [ {| Filters :=
                      [ {| Filter_Name := "tcp";
                           Filter_TypedConfig := Some
                             {| Any_TypeUrl := "TcpProxy";
                                Any_Value :=
                                  "soloioTcpStatsc6>proxy.example.com" |}
                        |} ] |} ] |} ] in
  allRoutes (mutRouteConfigurations out) !! 6 = Some rt' ∧
  RouteAction_GetCluster (Route_GetRoute rt')
    = "solo_io_generated_self_cluster_c6" ∧
  (∃ st1, sampleProcessRoute st Sample.r_c6 = (rt', st1, Next) ∧
     liveClusters st1 = liveClusters st ∧
     selfPair (generatedClusters st1) (generatedListeners st1)) ∧
  outErr out = None ∧
  selfPair (outClusters out) (outListeners out).
Proof.
  intros out st rt' selfPair.
  assert (Henc : sampleEncountered Sample.inClusters Sample.rtConfigs
                   [Sample.r_c1; Sample.r_weighted; Sample.r_plain;
                    Sample.r_c1'; Sample.r_header; Sample.r_c2]
                   Sample.r_c6 [] st)
    by (split; [reflexivity | eexists; reflexivity]).
  assert (Hel : sampleEligible Sample.r_c6 "c6" Sample.us_c6)
    by (repeat split; discriminate).
  assert (Habs : "c6" ∉ map Cluster_Name Sample.inClusters) by by_computation.
  destruct (absent_cluster_still_tunnelled _ _ _ _ _ _ [] _ [] _ _ _ _ _ _
              Henc Hel Habs) as (H1 & H2 & H3 & H4).
  split; [exact H1|]. split; [exact H2|].
  split; [exact (H3 _ eq_refl)|].
  split; [reflexivity|].
  destruct (H4 eq_refl) as (typedConfig & Hany & Hpair).
  injection Hany as <-. exact Hpair.
Defined.

(** The listener generated for c2 carries the two CONNECT headers of its
    upstream. *)
Lemma connect_headers_carried_in_order_witness :
  ∃ cluster us cfg tunnel typedConfig,
    sampleUpstreamOf cluster = Some us ∧
    Sample.MessageToAny (Message_TcpProxy cfg) = inr typedConfig ∧
    typedConfig = {| Any_TypeUrl := "TcpProxy";
                     Any_Value :=
                       "soloioTcpStatsc2_gloo-system>proxy.example.com" |} ∧
    TcpProxy_Cluster cfg = Some cluster ∧
    TunnelingConfig cfg = Some tunnel ∧
    length (HeadersToAdd tunnel) = length (HttpConnectHeaders us) ∧
    ∀ (i : nat) (header : UpstreamHeaderValue),
      HttpConnectHeaders us !! i = Some header →
      HeadersToAdd tunnel !! i =
        Some {| HeaderValueOption_Header := Some
                  {| HeaderValue_Key := header_Key header;
                     HeaderValue_Value := header_Value header |};
                HeaderValueOption_Append := Some false |}.
Proof.
  destruct (connect_headers_carried_in_order
              Sample.ClusterToUpstreamRef Sample.Find
              Sample.ResolveUpstreamSslConfig Sample.MessageToAny Sample.params
              Sample.inClusters [] Sample.rtConfigs []
              {| Listener_Name := "solo_io_generated_self_listener_c2_gloo-system";
                 Listener_Address := Some
                   (Address_Pipe {| Pipe_Path := "@/c2_gloo-system" |});
                 FilterChains :=
                   [ {| Filters :=
                          [ {| Filter_Name := "tcp";
                               Filter_TypedConfig := Some
                                 {| Any_TypeUrl := "TcpProxy";
                                    Any_Value :=
                                      "soloioTcpStatsc2_gloo-system>proxy.example.com"
                                 |} |} ] |} ] |})
    as (cluster & us & cfg & tunnel & typedConfig & Hus & Hany & Hfc & Hrest).
  - vm_compute. right. left.
  - exists cluster, us, cfg, tunnel, typedConfig.
    split; [exact Hus|]. split; [exact Hany|].
    split; [by injection Hfc as <-|]. exact Hrest.
Defined.

(** What a second call does depends on the reference resolver and on the
    snapshot: the assumption that self-cluster names have no upstream is
    needed.  With a resolver
    that takes every cluster name for the name of an upstream, and a
    snapshot with tunneling upstreams named x and
    solo_io_generated_self_cluster_x, the first call processes both names,
    and the second call generates the self-cluster of the second name
    again. *)
Example second_pass_with_permissive_resolver :
  let GeneratedResources' :=
    GeneratedResources Sample.AnyClusterToUpstreamRef Sample.Find
      Sample.ResolveUpstreamSslConfig Sample.MessageToAny Sample.paramsSelf in
  let out1 := GeneratedResources' [] []
                (Sample.rtConfigsOf [Sample.r_x; Sample.r_self_x]) [] in
  let out2 := GeneratedResources' (mutClusters out1 ++ outClusters out1) []
                (mutRouteConfigurations out1) (outListeners out1) in
  map Cluster_Name (outClusters out1) =
    [selfClusterOf "x"; selfClusterOf "solo_io_generated_self_cluster_x"] ∧
  map Cluster_Name (outClusters out2) =
    [selfClusterOf "solo_io_generated_self_cluster_x"].
Proof. split; reflexivity. Qed.

(** The sample routes name c1, c2 and c6, in this order: the call returns
    three pairs, and each pair is closed over the pipe of its name. *)
Lemma generated_pair_closes_the_loop_witness :
  let out := SampleGeneratedResources Sample.inClusters []
               Sample.rtConfigs [] in
  ∃ order : list string,
    order = ["c1"; "c2_gloo-system"; "c6"] ∧
    Forall2 (λ c cluster,
               Cluster_Name cluster = "solo_io_generated_self_cluster_" +:+ c ∧
               LoadAssignment cluster = Some
                 {| ClusterName := "solo_io_generated_self_cluster_" +:+ c;
                    Endpoints :=
                      [ {| LbEndpoints :=
                             [ {| LbEndpoint_Endpoint := Some
                                    {| Endpoint_Address := Some
                                         (Address_Pipe
                                            {| Pipe_Path := "@/" +:+ c |}) |}
                               |} ] |} ] |} ∧
               endpointPipes cluster = ["@/" +:+ c])
            order (outClusters out) ∧
    Forall2 (λ c listener,
               Listener_Name listener = "solo_io_generated_self_listener_" +:+ c ∧
               Listener_Address listener
                 = Some (Address_Pipe {| Pipe_Path := "@/" +:+ c |}) ∧
               ∃ cfg typedConfig,
                 Sample.MessageToAny (Message_TcpProxy cfg) = inr typedConfig ∧
                 StatPrefix cfg = "soloioTcpStats" +:+ c ∧
                 TcpProxy_Cluster cfg = Some c ∧
                 FilterChains listener =
                   [ {| Filters :=
                          [ {| Filter_Name := "tcp";
                               Filter_TypedConfig := Some typedConfig |} ] |} ])
            order (outListeners out).
Proof.
  intros out.
  destruct (generated_pair_closes_the_loop
              Sample.ClusterToUpstreamRef Sample.Find
              Sample.ResolveUpstreamSslConfig Sample.MessageToAny Sample.params
              Sample.inClusters [] Sample.rtConfigs [])
    as (order & _ & _ & _ & Hfull & Hcl & Hls).
  exists order. split; [exact (Hfull _ _ eq_refl)|].
  split; [exact Hcl | exact Hls].
Defined.

(** *** Where the preconditions are needed *)



(** The routes to c4 and to c6 are tunneling-eligible, and no input cluster
    has one of these names.  The TCP proxy configuration of c4 does not
    serialise: the call returns the error and nothing else.  And when the
    route before the route to c6 names an upstream that is not there, the
    call returns before it reaches the route: the route is left as it was,
    and nothing is generated. *)
Lemma absent_cluster_not_tunnelled_without_the_preconditions :
  let inClusters := [Sample.cluster "c1" (Some (Sample.transportSocket "TLS-A"))] in
  let rtConfigsA := Sample.rtConfigsOf [Sample.r_c4] in
  let outA := SampleGeneratedResources inClusters [] rtConfigsA [] in
  let rtConfigsB := Sample.rtConfigsOf [Sample.r_unknown; Sample.r_c6] in
  let outB := SampleGeneratedResources inClusters [] rtConfigsB [] in
  (sampleEligible Sample.r_c4 "c4" Sample.us_c4 ∧
   ("c4" ∉ map Cluster_Name inClusters) ∧
   Sample.r_c4 ∈ allRoutes rtConfigsA ∧
   outErr outA = Some (errorString "marshal tcp proxy") ∧
   outClusters outA = [] ∧ outListeners outA = []) ∧
  (sampleEligible Sample.r_c6 "c6" Sample.us_c6 ∧
   ("c6" ∉ map Cluster_Name inClusters) ∧
   Sample.r_c6 ∈ allRoutes rtConfigsB ∧
   allRoutes (mutRouteConfigurations outB) = [Sample.r_unknown; Sample.r_c6] ∧
   outErr outB = None ∧
   outClusters outB = [] ∧ outListeners outB = []).
Proof.
  split.
  - split; [repeat split; discriminate|]. split; [by_computation|].
    split; [vm_compute; left|]. repeat split; reflexivity.
  - split; [repeat split; discriminate|]. split; [by_computation|].
    split; [vm_compute; right; left|]. repeat split; reflexivity.
Qed.


(** *** Runs of the method on the sample environment *)

(** The end-to-end run: two virtual hosts both route to c1, whose upstream
    tunnels to internal.example.com with the CONNECT header X-Foo: bar and
    has no tunnel SSL configuration; the cluster c1 carries TLS-A. *)
Example two_virtual_hosts_route_to_c1 :
  let out := SampleGeneratedResources
               [Sample.cluster "c1" (Some (Sample.transportSocket "TLS-A"))] []
               [Sample.routeConfiguration
                  [Sample.virtualHost "a" [Sample.r_c1];
                   Sample.virtualHost "b" [Sample.r_c1']]] [] in
  outErr out = None ∧
  map (λ rt, RouteAction_GetCluster (Route_GetRoute rt))
      (allRoutes (mutRouteConfigurations out))
    = ["solo_io_generated_self_cluster_c1"; "solo_io_generated_self_cluster_c1"] ∧
  outClusters out =
    [generateSelfCluster "solo_io_generated_self_cluster_c1" "@/c1"
       (Some (Sample.transportSocket "TLS-A"))] ∧
  map Cluster_TransportSocket (mutClusters out) = [None] ∧
  map Listener_Name (outListeners out) = ["solo_io_generated_self_listener_c1"] ∧
  map Listener_Address (outListeners out)
    = [Some (Address_Pipe {| Pipe_Path := "@/c1" |})] ∧
  Sample.MessageToAny
    (Message_TcpProxy
       {| StatPrefix := "soloioTcpStatsc1";
          TunnelingConfig := Some
            {| Hostname := "internal.example.com";
               HeadersToAdd :=
                 [ {| HeaderValueOption_Header := Some
                        {| HeaderValue_Key := "X-Foo";
                           HeaderValue_Value := "bar" |};
                      HeaderValueOption_Append := Some false |} ] |};
          TcpProxy_Cluster := Some "c1" |})
    = inr {| Any_TypeUrl := "TcpProxy";
             Any_Value := "soloioTcpStatsc1>internal.example.com" |} ∧
  map FilterChains (outListeners out) =
    [ [ {| Filters :=
             [ {| Filter_Name := "tcp";
                  Filter_TypedConfig := Some
                    {| Any_TypeUrl := "TcpProxy";
                       Any_Value := "soloioTcpStatsc1>internal.example.com" |}
               |} ] |} ] ].
Proof. repeat split; reflexivity. Qed.

(** A cluster name that does not parse, and one without upstream: the call
    returns what it generated for c1 and no error, and never reaches the
    route to c2. *)
Example unparsable_and_unknown_cluster_names :
  let names routes :=
    let out := SampleGeneratedResources Sample.inClusters []
                 (Sample.rtConfigsOf routes) [] in
    (map Cluster_Name (outClusters out), map Listener_Name (outListeners out),
     outErr out,
     map (λ rt, RouteAction_GetCluster (Route_GetRoute rt))
         (allRoutes (mutRouteConfigurations out))) in
  names [Sample.r_c1; Sample.r_unparsable; Sample.r_c2] =
    (["solo_io_generated_self_cluster_c1"],
     ["solo_io_generated_self_listener_c1"], None,
     ["solo_io_generated_self_cluster_c1"; "a_b_c"; "c2_gloo-system"]) ∧
  names [Sample.r_c1; Sample.r_unknown; Sample.r_c2] =
    (["solo_io_generated_self_cluster_c1"],
     ["solo_io_generated_self_listener_c1"], None,
     ["solo_io_generated_self_cluster_c1"; "nowhere"; "c2_gloo-system"]).
Proof. split; reflexivity. Qed.

(** The tunnel TLS context of c5 resolves and does not serialise: the call
    returns the error and nothing else; the route to c5 is rewritten and the
    cluster c5 is left without transport socket all the same. *)
Example tls_context_does_not_serialise :
  let out := SampleGeneratedResources Sample.inClusters []
               (Sample.rtConfigsOf [Sample.r_c1; Sample.r_c5; Sample.r_c2]) [] in
  outErr out = Some (errorString "marshal tls") ∧
  outClusters out = [] ∧ outListeners out = [] ∧
  map (λ rt, RouteAction_GetCluster (Route_GetRoute rt))
      (allRoutes (mutRouteConfigurations out))
    = ["solo_io_generated_self_cluster_c1"; "solo_io_generated_self_cluster_c5";
       "c2_gloo-system"].
Proof. repeat split; reflexivity. Qed.

(** After the partial return at the route to c3, that route names a
    self-cluster that was not generated, and the cluster c3 has lost its
    transport socket: the rewrite and the clearing come before the tunnel's
    SSL configuration is resolved. *)
Example partial_return_after_rewrite :
  let out := SampleGeneratedResources Sample.inClusters []
               (Sample.rtConfigsOf [Sample.r_c1; Sample.r_c3; Sample.r_c2]) [] in
  outErr out = None ∧
  map (λ rt, RouteAction_GetCluster (Route_GetRoute rt))
      (allRoutes (mutRouteConfigurations out))
    = ["solo_io_generated_self_cluster_c1"; "solo_io_generated_self_cluster_c3";
       "c2_gloo-system"] ∧
  map Cluster_Name (outClusters out) = ["solo_io_generated_self_cluster_c1"] ∧
  Cluster_TransportSocket <$> clusterNamed "c3" Sample.inClusters
    = Some (Some (Sample.transportSocket "TLS-C")) ∧
  Cluster_TransportSocket <$> clusterNamed "c3" (mutClusters out) = Some None.
Proof. repeat split; reflexivity. Qed.

(** *** The further properties on the sample environment *)

Local Abbreviation sampleEligibleCluster :=
  (eligibleCluster Sample.ClusterToUpstreamRef Sample.Find Sample.params).

Local Abbreviation sampleRewriteRoute :=
  (rewriteRoute Sample.ClusterToUpstreamRef Sample.Find Sample.params).

Local Abbreviation sampleScanRoutes :=
  (scanRoutes Sample.ClusterToUpstreamRef Sample.Find
     Sample.ResolveUpstreamSslConfig Sample.MessageToAny Sample.params).

(** The second cluster of the name c1 keeps its transport socket; the first
    one has lost it. *)
Lemma only_first_cluster_of_an_eligible_name_changes_witness :
  let out := SampleGeneratedResources Sample.inClustersTwice []
               Sample.rtConfigs [] in
  (mutClusters out !! 6 = Some Sample.c1_again ∨
   (firstOfItsName Sample.inClustersTwice 6 Sample.c1_again ∧
    ∃ rt us, rt ∈ allRoutes Sample.rtConfigs ∧
             sampleEligible rt (Cluster_Name Sample.c1_again) us)) ∧
  mutClusters out !! 6 = Some Sample.c1_again ∧
  Cluster_TransportSocket <$> mutClusters out !! 0 = Some None.
Proof.
  split; [|split; reflexivity].
  apply (only_first_cluster_of_an_eligible_name_changes
           Sample.ClusterToUpstreamRef Sample.Find
           Sample.ResolveUpstreamSslConfig Sample.MessageToAny Sample.params
           Sample.inClustersTwice [] Sample.rtConfigs [] 6 Sample.c1_again).
  reflexivity.
Defined.

(** No route is eligible, and the scan stops at a name that does not parse:
    nothing is returned and nothing is changed. *)
Lemma nothing_to_tunnel_changes_nothing_witness :
  let rtConfigs :=
    Sample.rtConfigsOf
      [Sample.r_weighted; Sample.r_plain; Sample.r_header;
       Sample.r_unparsable; Sample.r_unknown] in
  let out := SampleGeneratedResources Sample.inClusters [] rtConfigs [] in
  outErr out = None ∧ outClusters out = [] ∧ outListeners out = [] ∧
  mutClusters out = Sample.inClusters ∧
  mutRouteConfigurations out = rtConfigs.
Proof.
  apply (nothing_to_tunnel_changes_nothing
           Sample.ClusterToUpstreamRef Sample.Find
           Sample.ResolveUpstreamSslConfig Sample.MessageToAny Sample.params).
  repeat constructor.
Defined.

(** The routes of the sample in one virtual host. *)
Lemma grouping_of_routes_is_irrelevant_witness :
  let out := SampleGeneratedResources Sample.inClusters []
               Sample.rtConfigs [] in
  let out' := SampleGeneratedResources Sample.inClusters []
                (Sample.rtConfigsOf (allRoutes Sample.rtConfigs)) [] in
  outClusters out = outClusters out' ∧
  outListeners out = outListeners out' ∧
  outErr out = outErr out' ∧
  mutClusters out = mutClusters out' ∧
  allRoutes (mutRouteConfigurations out)
    = allRoutes (mutRouteConfigurations out').
Proof.
  apply (grouping_of_routes_is_irrelevant
           Sample.ClusterToUpstreamRef Sample.Find
           Sample.ResolveUpstreamSslConfig Sample.MessageToAny Sample.params).
  reflexivity.
Defined.




(** The error of the call on the route to c4 is the serialiser's. *)
Lemma errors_are_serialisation_errors_witness :
  ∃ rt cluster us,
    rt ∈ [Sample.r_c1; Sample.r_c4; Sample.r_c2] ∧
    sampleEligible rt cluster us ∧
    (Sample.MessageToAny (Message_TcpProxy (tcpProxyFor cluster us))
       = inl (errorString "marshal tcp proxy") ∨
     ∃ sslConfig cfg,
       HttpConnectSslConfig us = Some sslConfig ∧
       Sample.ResolveUpstreamSslConfig (Secrets (Snapshot Sample.params))
         sslConfig = inr cfg ∧
       Sample.MessageToAny (Message_UpstreamTlsContext cfg)
         = inl (errorString "marshal tcp proxy")).
Proof.
  apply (errors_are_serialisation_errors
           Sample.ClusterToUpstreamRef Sample.Find
           Sample.ResolveUpstreamSslConfig Sample.MessageToAny Sample.params
           Sample.inClusters []
           (Sample.rtConfigsOf [Sample.r_c1; Sample.r_c4; Sample.r_c2]) []).
  reflexivity.
Defined.

(** A redirect between two tunneling routes. *)
Lemma routes_without_cluster_name_left_alone_witness :
  let out := SampleGeneratedResources Sample.inClusters []
               (Sample.rtConfigsOf
                  [Sample.r_c1; Sample.r_redirect; Sample.r_c2]) [] in
  let out' := SampleGeneratedResources Sample.inClusters []
                (Sample.rtConfigsOf [Sample.r_c1; Sample.r_c2]) [] in
  let st := sampleStateAfter [Sample.r_c1] in
  sampleProcessRoute st Sample.r_redirect = (Sample.r_redirect, st, Next) ∧
  allRoutes (mutRouteConfigurations out) !! 1 = Some Sample.r_redirect ∧
  outClusters out = outClusters out' ∧
  outListeners out = outListeners out' ∧
  outErr out = outErr out' ∧
  mutClusters out = mutClusters out' ∧
  allRoutes (mutRouteConfigurations out) =
    take 1 (allRoutes (mutRouteConfigurations out')) ++
    Sample.r_redirect :: drop 1 (allRoutes (mutRouteConfigurations out')).
Proof.
  intros out out' st.
  assert (Henc : sampleEncountered Sample.inClusters
                   (Sample.rtConfigsOf
                      [Sample.r_c1; Sample.r_redirect; Sample.r_c2])
                   [Sample.r_c1] Sample.r_redirect [Sample.r_c2] st)
    by (split; [reflexivity | eexists; reflexivity]).
  destruct (routes_without_cluster_name_left_alone _ _ _ _ _ _ [] _ [] _ _ _ _
              Henc eq_refl) as (H1 & H2 & H3).
  split; [exact H1|]. split; [exact H2|].
  exact (H3 (Sample.rtConfigsOf [Sample.r_c1; Sample.r_c2]) eq_refl).
Defined.

(** The first three routes of the sample, then all of them. *)
Lemma later_routes_only_add_results_witness :
  let part := Sample.rtConfigsOf
                [Sample.r_c1; Sample.r_weighted; Sample.r_plain] in
  let out := SampleGeneratedResources Sample.inClusters [] part [] in
  let out' := SampleGeneratedResources Sample.inClusters []
                Sample.rtConfigs [] in
  ∃ moreClusters moreListeners,
    outClusters out' = outClusters out ++ moreClusters ∧
    outListeners out' = outListeners out ++ moreListeners ∧
    length moreClusters = length moreListeners ∧
    take (length (allRoutes part)) (allRoutes (mutRouteConfigurations out'))
      = allRoutes (mutRouteConfigurations out).
Proof.
  eapply (later_routes_only_add_results
            Sample.ClusterToUpstreamRef Sample.Find
            Sample.ResolveUpstreamSslConfig Sample.MessageToAny Sample.params
            Sample.inClusters []
            (Sample.rtConfigsOf [Sample.r_c1; Sample.r_weighted; Sample.r_plain])
            _ Sample.rtConfigs []
            [Sample.r_c1'; Sample.r_header; Sample.r_c2; Sample.r_c6]).
  - reflexivity.
  - reflexivity.
  - reflexivity.
Defined.
